(** * uproot/_connect/to_numba.py: expression chains over a chunked tree source

    A shallow embedding of the module and the properties of its
    expression compiler ([string2fcn]), its requirement resolvers
    ([_satisfy], [_argfcn]) and its iteration driver ([iterate]).

    Python objects are modelled by first-order data: exceptions by the
    [result] monad, mutable sets and dicts by [gset] and [gmap] threaded
    through the calls that mutate them, and a generator by the trace of
    what it fetches, yields and finally raises. *)

From Stdlib Require Import ZArith String.
From stdpp Require Import gmap strings list sorting.

Set Warnings "-register-all,-clear-no-such-hyp".
Local Open Scope Z_scope.

(** ** Exceptions and results *)

Inductive exn :=
| TypeError (msg : string)
| ValueError (msg : string)
| NameError (name : string)
| UnboundLocalError (name : string)
| AttributeError (attr : string)
| SyntaxError (msg : string)
| KeyError (key : string)
| IndexError
| Unsupported                 (* a construct outside the modelled fragment *)
| UserException (tag : nat).  (* anything a user-supplied callable raises *)

Inductive result (A : Type) :=
| Ok (a : A)
| Raise (e : exn).
Arguments Ok {A} a.
Arguments Raise {A} e.

#[global] Instance result_ret : MRet result := fun _ a => Ok a.
#[global] Instance result_bind : MBind result := fun _ _ k m =>
  match m with
  | Ok a => k a
  | Raise e => Raise e
  end.

(** What a computation returns, forgetting which exception it raised. *)
Definition returned {A} (r : result A) : option A :=
  match r with
  | Ok a => Some a
  | Raise _ => None
  end.

(** ** Values *)

(** Integers, one-dimensional arrays of 64-bit integers (numpy arrays),
    tuples and [None]. *)
Inductive value :=
| VNone
| VInt (n : Z)
| VArray (xs : list Z)
| VTuple (vs : list value).

(** The code object of a function: [co_varnames] lists the arguments
    first and the other local variables after them. *)
Record pyfunction := {
  fn_name : option string;            (* __name__ *)
  fn_id : nat;                        (* id(f) *)
  co_argnames : list string;
  co_localnames : list string;
  fn_body : list value -> result value
}.

Definition co_varnames (f : pyfunction) : list string :=
  co_argnames f ++ co_localnames f.

Inductive pyobject :=
| PyValue (v : value)
| PyFunction (f : pyfunction)
| PyOpaque (descr : string).   (* modules, classes: never looked into *)

Definition pycall (f : pyfunction) (args : list value) : result value :=
  if decide (length args = length (co_argnames f)) then fn_body f args
  else Raise (TypeError "wrong number of arguments").

Definition call_object (o : pyobject) (args : list value) : result value :=
  match o with
  | PyFunction f => pycall f args
  | _ => Raise (TypeError "object is not callable")
  end.

(** [sequence[index]] for a non-negative index. *)
Definition getitem (seq : value) (index : nat) : result value :=
  match seq with
  | VTuple vs =>
      match vs !! index with
      | Some v => Ok v
      | None => Raise IndexError
      end
  | VArray xs =>
      match xs !! index with
      | Some n => Ok (VInt n)
      | None => Raise IndexError
      end
  | _ => Raise (TypeError "object is not subscriptable")
  end.

(** numpy.arange(start, stop) *)
Definition arange (start stop : Z) : value :=
  VArray ((fun i => start + Z.of_nat i) <$> seq 0 (Z.to_nat (stop - start))).

(** ** Syntax trees, as [recurse] sees them *)

Module ast.

Inductive expr_context := Load | Store | Del | Param | AugLoad | AugStore.

Inductive constant :=
| CInt (n : Z)
| CStr (s : string)
| CNone.

Inductive class :=
| Assign | AugAssign | Expr | Return | Pass | Break | Continue
| While | If | Lambda | BinOp | Num | Add | Sub | Mult
| OtherClass (name : string).

(** A node is a FunctionDef, a Name, any other AST instance with its
    fields in [_fields] order, a list, or a plain field value. *)
Inductive node :=
| FunctionDef (fields : list node)
| Name (id : string) (ctx : expr_context)
| AST (cls : class) (fields : list node)
| List (elems : list node)
| Atom (c : constant).

End ast.

#[global] Instance expr_context_eq_dec : EqDecision ast.expr_context.
Proof. solve_decision. Defined.

(** Names read ([Load]) and names bound ([Store]) in a tree, in the
    order [recurse] meets them. *)
Fixpoint loads (n : ast.node) : list string :=
  match n with
  | ast.FunctionDef fields => concat (map loads fields)
  | ast.Name id ctx => if decide (ctx = ast.Load) then [id] else []
  | ast.AST _ fields => concat (map loads fields)
  | ast.List elems => concat (map loads elems)
  | ast.Atom _ => []
  end.

Fixpoint stores (n : ast.node) : list string :=
  match n with
  | ast.FunctionDef fields => concat (map stores fields)
  | ast.Name id ctx => if decide (ctx = ast.Store) then [id] else []
  | ast.AST _ fields => concat (map stores fields)
  | ast.List elems => concat (map stores elems)
  | ast.Atom _ => []
  end.

Fixpoint has_FunctionDef (n : ast.node) : bool :=
  match n with
  | ast.FunctionDef _ => true
  | ast.Name _ _ => false
  | ast.AST _ fields => existsb has_FunctionDef fields
  | ast.List elems => existsb has_FunctionDef elems
  | ast.Atom _ => false
  end.

Definition nested_def_error : exn :=
  TypeError "function definitions are not allowed in a function parsed from a string".

(** ** string2fcn.recurse

    [insymbols] and [outsymbols] are the two sets the closure mutates. *)
Definition symbols : Type := gset string * gset string.

Definition visit_Name (id : string) (ctx : ast.expr_context) (st : symbols) : symbols :=
  match ctx with
  | ast.Load => if decide (id ∈ st.2) then st else ({[id]} ∪ st.1, st.2)
  | ast.Store => (st.1, {[id]} ∪ st.2)
  | _ => st
  end.

Fixpoint recurse (n : ast.node) (st : symbols) : result symbols :=
  let fix each (l : list ast.node) (st : symbols) : result symbols :=
    match l with
    | [] => Ok st
    | x :: l' => st' ← recurse x st; each l' st'
    end in
  match n with
  | ast.FunctionDef _ =>
      Raise (TypeError "function definitions are not allowed in a function parsed from a string")
  | ast.Name id ctx => Ok (visit_Name id ctx st)
  | ast.AST _ fields => each fields st
  | ast.List elems => each elems st
  | ast.Atom _ => Ok st
  end.

Fixpoint recurse_each (l : list ast.node) (st : symbols) : result symbols :=
  match l with
  | [] => Ok st
  | x :: l' => st' ← recurse x st; recurse_each l' st'
  end.

(** sorted(insymbols): strings compare by character code. *)
Definition sorted (s : gset string) : list string :=
  merge_sort String.le (elements s).

(** ** Running a parsed body

    The arithmetic of the modelled fragment: [+], [-] and [*] on
    integers and, element by element, on arrays. *)
Definition int_op (op : ast.class) : option (Z -> Z -> Z) :=
  match op with
  | ast.Add => Some Z.add
  | ast.Sub => Some Z.sub
  | ast.Mult => Some Z.mul
  | _ => None
  end.

(** Array elements are int64: the result of an operation on them wraps
    around modulo 2^64 into the range from -2^63 to 2^63 - 1.  The
    wrapped value is read off the binary digits of the number, the
    lowest first: [signed_bits p n] is the value of the [n] lowest
    digits of [p] as a signed [n]-bit number, [neg_bits] that of [- p]
    and [not_bits] that of [- p - 1]. *)
Fixpoint signed_bits (p : positive) (n : nat) {struct p} : Z :=
  match n with
  | O => 0
  | S O => match p with xO _ => 0 | _ => -1 end
  | S n' =>
      match p with
      | xH => 1
      | xO q => Z.double (signed_bits q n')
      | xI q => Z.succ_double (signed_bits q n')
      end
  end.

Fixpoint not_bits (p : positive) (n : nat) {struct p} : Z :=
  match n with
  | O => 0
  | S O => match p with xO _ => -1 | _ => 0 end
  | S n' =>
      match p with
      | xH => -2
      | xO q => Z.succ_double (not_bits q n')
      | xI q => Z.double (not_bits q n')
      end
  end.

Fixpoint neg_bits (p : positive) (n : nat) {struct p} : Z :=
  match n with
  | O => 0
  | S O => match p with xO _ => 0 | _ => -1 end
  | S n' =>
      match p with
      | xH => -1
      | xO q => Z.double (neg_bits q n')
      | xI q => Z.succ_double (not_bits q n')
      end
  end.

(** [(z + 2^63) mod 2^64 - 2^63], see [wrap64_mod]. *)
Definition wrap64 (z : Z) : Z :=
  match z with
  | Z0 => 0
  | Zpos p => signed_bits p 64
  | Zneg p => neg_bits p 64
  end.

(** [Zpos p < 2 ^ n] and [Zpos p <= 2 ^ n], digit by digit. *)
Fixpoint below_pow2 (p : positive) (n : nat) {struct p} : bool :=
  match n with
  | O => false
  | S n' => match p with xH => true | xO q | xI q => below_pow2 q n' end
  end.

Fixpoint upto_pow2 (p : positive) (n : nat) {struct p} : bool :=
  match n with
  | O => match p with xH => true | _ => false end
  | S n' =>
      match p with
      | xH => true
      | xO q => upto_pow2 q n'
      | xI q => below_pow2 q n'
      end
  end.

(** [-2^63 <= z < 2^63], see [fits64_range]. *)
Definition fits64 (z : Z) : bool :=
  match z with
  | Z0 => true
  | Zpos p => below_pow2 p 63
  | Zneg p => upto_pow2 p 63
  end.

(** Python integers are unbounded; an array with an integer that fits
    int64 is computed in int64 (what numpy does with one that does not
    fit depends on its version and is left out). *)
Definition binop (op : ast.class) (a b : value) : result value :=
  match int_op op with
  | None => Raise Unsupported
  | Some f =>
      let g := fun x y => wrap64 (f x y) in
      match a, b with
      | VInt x, VInt y => Ok (VInt (f x y))
      | VArray xs, VInt y =>
          if fits64 y then Ok (VArray ((fun x => g x y) <$> xs)) else Raise Unsupported
      | VInt x, VArray ys =>
          if fits64 x then Ok (VArray (g x <$> ys)) else Raise Unsupported
      | VArray xs, VArray ys =>
          if decide (length xs = length ys) then Ok (VArray (zip_with g xs ys))
          else match xs, ys with
               | [x], _ => Ok (VArray (g x <$> ys))
               | _, [y] => Ok (VArray ((fun x => g x y) <$> xs))
               | _, _ => Raise (ValueError "operands could not be broadcast together")
               end
      | VTuple _, _ | _, VTuple _ => Raise Unsupported
      | _, _ => Raise (TypeError "unsupported operand type(s)")
      end
  end.

Abbreviation frame := (gmap string value).

(** Expressions read names through [load], which differs between a
    function body and module-level code. *)
Fixpoint eval_expr (load : string -> result value) (e : ast.node) : result value :=
  match e with
  | ast.AST ast.Num [ast.Atom (ast.CInt n)] => Ok (VInt n)
  | ast.Name id ast.Load => load id
  | ast.AST ast.BinOp [l; ast.AST op []; r] =>
      a ← eval_expr load l;
      b ← eval_expr load r;
      binop op a b
  | _ => Raise Unsupported
  end.

Fixpoint assign_targets (targets : list ast.node) (v : value) (fr : frame) : result frame :=
  match targets with
  | [] => Ok fr
  | ast.Name id ast.Store :: rest => assign_targets rest v (<[id := v]> fr)
  | _ :: _ => Raise Unsupported
  end.

Inductive completion :=
| Normal (fr : frame)
| Returned (v : value).

Definition exec_stmt (load : frame -> string -> result value)
    (s : ast.node) (fr : frame) : result completion :=
  match s with
  | ast.AST ast.Assign [ast.List targets; value] =>
      v ← eval_expr (load fr) value;
      fr' ← assign_targets targets v fr;
      Ok (Normal fr')
  | ast.AST ast.Expr [value] =>
      _ ← eval_expr (load fr) value;
      Ok (Normal fr)
  | ast.AST ast.Return [value] =>
      v ← eval_expr (load fr) value;
      Ok (Returned v)
  | ast.AST ast.Pass [] => Ok (Normal fr)
  | _ => Raise Unsupported
  end.

(** A function body: runs to the first [return], or to the end and
    then returns [None]. *)
Fixpoint exec_body (load : frame -> string -> result value)
    (body : list ast.node) (fr : frame) : result value :=
  match body with
  | [] => Ok VNone
  | s :: rest =>
      c ← exec_stmt load s fr;
      match c with
      | Normal fr' => exec_body load rest fr'
      | Returned v => Ok v
      end
  end.

(** ** makefcn

    A compiled module holding one [def]. *)
Record funcdef := {
  def_name : string;
  def_args : list string;
  def_body : list ast.node
}.

(** The names the compiler makes local to the function: its arguments
    and every name its body binds. *)
Definition local_names (d : funcdef) : list string :=
  def_args d ++ concat (map stores (def_body d)).

Definition load_in_function (d : funcdef) (env : gmap string pyobject)
    (fr : frame) (x : string) : result value :=
  if decide (x ∈ local_names d) then
    match fr !! x with
    | Some v => Ok v
    | None => Raise (UnboundLocalError x)
    end
  else if decide (x = def_name d) then Raise Unsupported
  else
    match env !! x with
    | Some (PyValue v) => Ok v
    | Some _ => Raise Unsupported
    | None => Raise (NameError x)
    end.

(** The names of [l] that are not in [seen], each once, in the order of
    their first occurrence. *)
Fixpoint first_occurrences (seen l : list string) : list string :=
  match l with
  | [] => []
  | x :: rest =>
      if decide (x ∈ seen) then first_occurrences seen rest
      else x :: first_occurrences (x :: seen) rest
  end.

(** The function object of a compiled [def].  After its arguments,
    [co_varnames] holds the other local names in the order the compiler
    first meets them; for the bodies [compile] accepts below these are
    the names bound by an assignment, in the order of the statements. *)
Definition closure (d : funcdef) (env : gmap string pyobject) : pyfunction :=
  {| fn_name := Some (def_name d);
     fn_id := 0;
     co_argnames := def_args d;
     co_localnames := first_occurrences (def_args d) (concat (map stores (def_body d)));
     fn_body := fun args =>
       exec_body (load_in_function d env) (def_body d) (list_to_map (zip (def_args d) args)) |}.

(** Names Python lets no code bind, neither as a parameter nor by an
    assignment. *)
Definition reserved_names : list string := ["__debug__"; "None"].

Definition is_reserved (x : string) : bool := bool_decide (x ∈ reserved_names).

(** ast.parse("def fcn({0}): pass".format(", ".join(names))).  More
    than 255 parameters are a SyntaxError before Python 3.7 and none
    since: the model does not say. *)
Definition parse_def (names : list string) : result funcdef :=
  match find is_reserved names with
  | Some name => Raise (SyntaxError ("cannot assign to " +:+ name))
  | None =>
      if (255 <? length names)%nat then Raise Unsupported
      else Ok {| def_name := "fcn"; def_args := names; def_body := [ast.AST ast.Pass []] |}
  end.

(** Python's compile() is modelled on the bodies made of assignments
    to one bare name, augmented assignments, [if], [pass], [return],
    [break], [continue] and expression statements over names, numbers
    and arithmetic: there every bound name is bound by a Store, no
    statement opens a scope or a loop, and so a [break] or [continue]
    anywhere is outside a loop.  On any other body the model does not
    say what compile() does ([Unsupported]). *)
Definition plain_class (cls : ast.class) : bool :=
  match cls with
  | ast.AugAssign | ast.Expr | ast.Return | ast.Pass | ast.If | ast.Break
  | ast.Continue | ast.BinOp | ast.Num | ast.Add | ast.Sub | ast.Mult => true
  | _ => false
  end.

Fixpoint modelled (n : ast.node) : bool :=
  match n with
  | ast.FunctionDef _ => false
  | ast.Name id ctx =>
      match ctx with
      | ast.Load => true
      | ast.Store => negb (is_reserved id)
      | _ => false
      end
  | ast.AST ast.Assign [ast.List [ast.Name id ast.Store]; value] =>
      negb (is_reserved id) && modelled value
  | ast.AST cls fields => plain_class cls && forallb modelled fields
  | ast.List elems => forallb modelled elems
  | ast.Atom _ => true
  end.

(** The [break] and [continue] statements of a tree, in order. *)
Fixpoint loop_exits (n : ast.node) : list ast.class :=
  match n with
  | ast.AST ast.Break _ => [ast.Break]
  | ast.AST ast.Continue _ => [ast.Continue]
  | ast.AST _ fields => concat (map loop_exits fields)
  | ast.FunctionDef fields => concat (map loop_exits fields)
  | ast.List elems => concat (map loop_exits elems)
  | _ => []
  end.

Definition compile (module : funcdef) (filename : string) : result funcdef :=
  if negb (forallb modelled (def_body module)) then Raise Unsupported
  else
    match concat (map loop_exits (def_body module)) with
    | [] => Ok module
    | ast.Continue :: _ => Raise (SyntaxError "'continue' not properly in loop")
    | _ :: _ => Raise (SyntaxError "'break' outside loop")
    end.

(** env = dict(env); exec(code, env); return env[name] *)
Definition makefcn (code : funcdef) (env : gmap string pyobject) (name : string) : result pyobject :=
  match <[def_name code := PyFunction (closure code env)]> env !! name with
  | Some o => Ok o
  | None => Raise (KeyError name)
  end.

(** body[-1] = ast.Return(body[-1].value) when the last statement is an
    expression statement. *)
Fixpoint return_last (body : list ast.node) : list ast.node :=
  match body with
  | [] => []
  | [ast.AST ast.Expr [value]] => [ast.AST ast.Return [value]]
  | s :: rest => s :: return_last rest
  end.

(** ** Evaluating a text directly

    The reading of the specification: the statements run in order over
    the given bindings, and the text's value is that of its final bare
    expression. *)
Definition load_direct (fr : frame) (x : string) : result value :=
  match fr !! x with
  | Some v => Ok v
  | None => Raise (NameError x)
  end.

Fixpoint eval_direct (body : list ast.node) (bindings : frame) : result value :=
  match body with
  | [] => Ok VNone
  | [ast.AST ast.Expr [value]] => eval_expr (load_direct bindings) value
  | s :: rest =>
      c ← exec_stmt load_direct s bindings;
      match c with
      | Normal bindings' => eval_direct rest bindings'
      | Returned _ => Raise (SyntaxError "'return' outside function")
      end
  end.

(** The free names of a text, in the specification's words: every read
    of a bare name not already assigned earlier in the text. *)
Fixpoint free_names (assigned : list string) (names : list (string * ast.expr_context)) : list string :=
  match names with
  | [] => []
  | (id, ast.Load) :: rest =>
      if decide (id ∈ assigned) then free_names assigned rest
      else id :: free_names assigned rest
  | (id, ast.Store) :: rest => free_names (id :: assigned) rest
  | _ :: rest => free_names assigned rest
  end.

(** The bare names of a tree in textual order. *)
Fixpoint names_of (n : ast.node) : list (string * ast.expr_context) :=
  match n with
  | ast.FunctionDef fields => concat (map names_of fields)
  | ast.Name id ctx => [(id, ctx)]
  | ast.AST _ fields => concat (map names_of fields)
  | ast.List elems => concat (map names_of elems)
  | ast.Atom _ => []
  end.

(** The expressions whose evaluation is modelled: integer arithmetic
    over names and numbers. *)
Fixpoint supported_expr (e : ast.node) : bool :=
  match e with
  | ast.AST ast.Num [ast.Atom (ast.CInt _)] => true
  | ast.Name _ ast.Load => true
  | ast.AST ast.BinOp [l; ast.AST op []; r] =>
      bool_decide (is_Some (int_op op)) && supported_expr l && supported_expr r
  | _ => false
  end.

(** ** The chain

    [tree] stands for tree.iterate with the entry range, step size and
    caches the source was built with: from the requested branch names to
    the chunks (entrystart, entrystop, arrays). *)
Inductive numba_arg :=
| NumbaOff                                        (* None or False *)
| NumbaCallable (compilefcn : pyobject -> pyobject).

Record ChainSource := {
  tree : list string -> list (Z * Z * list value);
  aliases : gmap string string;
  entryvar : option string;
  numba : numba_arg
}.

(** The same source built with another alias table. *)
Definition with_aliases (s : ChainSource) (table : gmap string string) : ChainSource :=
  {| tree := tree s; aliases := table; entryvar := entryvar s; numba := numba s |}.

Inductive step :=
| Source (s : ChainSource)
| Step (previous : step)
| Define (previous : step) (fcn : gmap string pyobject)
         (requirements : gmap string (list string)).

Definition ChainSource_compilefcn (s : ChainSource) : pyobject -> pyobject :=
  match numba s with
  | NumbaOff => fun f => f
  | NumbaCallable compilefcn => compilefcn
  end.

(** self._compilefcn: an instance attribute that only
    ChainSource.__init__ sets. *)
Definition getattr_compilefcn (self : step) : result (pyobject -> pyobject) :=
  match self with
  | Source s => Ok (ChainSource_compilefcn s)
  | _ => Raise (AttributeError "_compilefcn")
  end.

Fixpoint source (self : step) : ChainSource :=
  match self with
  | Source s => s
  | Step previous => source previous
  | Define previous _ _ => source previous
  end.

(** The accumulator of one resolution pass: [branchnames], and whether
    [entryvars] has received its one possible element. *)
Definition accumulator : Type := list string * bool.

(** list.index *)
Definition index_of (x : string) (l : list string) : option nat :=
  fst <$> list_find (fun y => y = x) l.

Definition branchname_of (s : ChainSource) (requirement : string) : string :=
  default requirement (aliases s !! requirement).

Definition ChainSource_satisfy (s : ChainSource) (requirement : string)
    (acc : accumulator) : accumulator :=
  if decide (entryvar s = Some requirement) then (acc.1, true)
  else
    match index_of (branchname_of s requirement) acc.1 with
    | Some _ => acc
    | None => (acc.1 ++ [branchname_of s requirement], acc.2)
    end.

(** lambda arrays: arrays[index] *)
Definition item_getter (index : nat) : pyobject :=
  PyFunction {| fn_name := Some "<lambda>";
                fn_id := 0;
                co_argnames := ["arrays"];
                co_localnames := [];
                fn_body := fun args =>
                  match args with
                  | [arrays] => getitem arrays index
                  | _ => Raise (TypeError "wrong number of arguments")
                  end |}.

Definition ChainSource_argfcn (s : ChainSource) (requirement : string)
    (branchnames : list string) : result pyobject :=
  index ← (if decide (entryvar s = Some requirement) then Ok (length branchnames)
           else match index_of (branchname_of s requirement) branchnames with
                | Some i => Ok i
                | None => Raise (ValueError "value is not in list")
                end);
  Ok (ChainSource_compilefcn s (item_getter index)).

Fixpoint _satisfy (self : step) (requirement : string) (acc : accumulator) : accumulator :=
  match self with
  | Source s => ChainSource_satisfy s requirement acc
  | Step previous => _satisfy previous requirement acc
  | Define previous _ requirements =>
      match requirements !! requirement with
      | Some reqs => foldl (fun acc req => _satisfy previous req acc) acc reqs
      | None => _satisfy previous requirement acc
      end
  end.

(** Reading a bare name inside a method: a local of that method, else
    a global of the module, else NameError. *)
Definition module_namespace : list string :=
  ["ast"; "keyword"; "math"; "sys"; "namedtuple"; "numpy"; "ifinstalled";
   "parsable"; "makefcn"; "string2fcn"; "ChainStep"; "Define"; "ChainSource";
   "TTreeMethods_numba"].

Definition load_name (locals : list string) (name : string) : result pyobject :=
  if decide (name ∈ locals) then Raise Unsupported
  else if decide (name ∈ module_namespace) then Ok (PyOpaque name)
  else Raise (NameError name).

(** def cfcn(arrays): return fcn(arg0(arrays), arg1(arrays), ...) *)
Definition make_cfcn (fcn : pyobject) (argfcns : list pyobject) : pyobject :=
  PyFunction {| fn_name := Some "cfcn";
                fn_id := 0;
                co_argnames := ["arrays"];
                co_localnames := [];
                fn_body := fun args =>
                  vs ← mapM (fun argfcn => call_object argfcn args) argfcns;
                  call_object fcn vs |}.

Definition Define_argfcn_locals : list string :=
  ["self"; "requirement"; "branchnames"; "argstrs"; "argfcns"; "env"; "i";
   "req"; "argfcn"; "module"].

Fixpoint _argfcn (self : step) (requirement : string) (branchnames : list string)
    : result pyobject :=
  match self with
  | Source s => ChainSource_argfcn s requirement branchnames
  | Step previous => _argfcn previous requirement branchnames
  | Define previous _ requirements =>
      match requirements !! requirement with
      | Some reqs =>
          fcn ← load_name Define_argfcn_locals "fcn";
          argfcns ← mapM (fun req => _argfcn previous req branchnames) reqs;
          compilefcn ← getattr_compilefcn self;
          _ ← load_name Define_argfcn_locals "dictname";
          Ok (compilefcn (make_cfcn fcn argfcns))
      | None => _argfcn previous requirement branchnames
      end
  end.

(** ** Arguments of iterate and define *)

Inductive expression :=
| Text (s : string)
| Callable (f : pyfunction)
| NotAnExpression.

(** A single object, a dict (its items in order, keys distinct), or
    another iterable. *)
Inductive exprs_arg :=
| Single (e : expression)
| Mapping (items : list (string * expression))
| Iterable (xs : list expression).

Inductive cacheid :=
| CacheText (s : string)
| CacheId (n : nat).

(** (fcn, requirements, cacheid, dictname) *)
Definition fcn_entry : Type := pyobject * list string * cacheid * option string.

Definition dictname_of (e : fcn_entry) : option string := e.2.

Definition is_expression (e : expression) : bool :=
  match e with
  | Text _ | Callable _ => true
  | NotAnExpression => false
  end.

Inductive container :=
| Cdict
| Ctuple
| Clist
| Cnamed (typename : string) (fields : list (option string))
| Cclass (name : string).

Inductive outputtype :=
| Container (c : container)
| NamedtupleFactory.          (* collections.namedtuple itself *)

Inductive record :=
| RDict (items : list (option string * value))
| RTuple (vs : list value)
| RList (vs : list value)
| RNamed (typename : string) (fields : list (option string)) (vs : list value)
| RObject (cls : string) (args : list value).

Definition record_values (r : record) : list value :=
  match r with
  | RDict items => items.*2
  | RTuple vs | RList vs | RNamed _ _ vs | RObject _ vs => vs
  end.

(** d[k] = v on a dict kept as its items in insertion order. *)
Fixpoint dict_set {K V} `{EqDecision K} (k : K) (v : V) (d : list (K * V)) : list (K * V) :=
  match d with
  | [] => [(k, v)]
  | (k', v') :: rest =>
      if decide (k' = k) then (k, v) :: rest else (k', v') :: dict_set k v rest
  end.

Definition pydict {K V} `{EqDecision K} (items : list (K * V)) : list (K * V) :=
  foldl (fun d kv => dict_set kv.1 kv.2 d) [] items.

Definition finish (c : container) (dictnames : list (option string))
    (results : list value) : record :=
  match c with
  | Cdict => RDict (pydict (zip dictnames results))
  | Ctuple => RTuple results
  | Clist => RList results
  | Cnamed typename fields => RNamed typename fields results
  | Cclass name => RObject name results
  end.

(** What one run of the generator does, in order, and how it ends:
    exhausted ([None]) or by raising. *)
Inductive event :=
| Fetch (arrays : list value)
| Yield (r : record).

Definition trace : Type := list event * option exn.

Definition emit (e : event) (t : trace) : trace := (e :: t.1, t.2).

(** A trace seen through a function of its records: [record_values]
    forgets the names under which a record holds its values. *)
Definition event_map {X} (g : record -> X) (e : event) : list value + X :=
  match e with
  | Fetch arrays => inl arrays
  | Yield r => inr (g r)
  end.

Definition trace_map {X} (g : record -> X) (t : trace)
    : list (list value + X) * option exn :=
  (event_map g <$> t.1, t.2).

Definition trace_values (t : trace) : list (list value + list value) * option exn :=
  trace_map record_values t.

(** The records a run yields and the chunks it fetches. *)
Definition yields (t : trace) : list record :=
  omap (fun e => match e with Yield r => Some r | Fetch _ => None end) t.1.

Definition fetches (t : trace) : list (list value) :=
  omap (fun e => match e with Fetch arrays => Some arrays | Yield _ => None end) t.1.

(** A compile function keeps the calling contract of what it wraps. *)
Definition keeps_contract (compilefcn : pyobject -> pyobject) : Prop :=
  forall o args, call_object (compilefcn o) args = call_object o args.

(** An object whose map applies the function to each index in turn
    and collects what it returns. *)
Inductive executor := MapExecutor.

(** Modelled from the spec: uproot.tree._delayedraise is defined in
    another file of the package; it re-raises a captured exception with
    its type and traceback, and does nothing for [None]. *)
Definition uproot_tree_delayedraise (excinfo : option exn) : result unit :=
  match excinfo with
  | None => Ok tt
  | Some e => Raise e
  end.

(** calculate(i), with the [results] list it writes to. *)
Definition calculate (compiled : list pyobject) (arrays : value) (i : nat)
    (results : list value) : option exn * list value :=
  match compiled !! i with
  | Some cfcn =>
      match call_object cfcn [arrays] with
      | Ok out => (None, <[i := out]> results)
      | Raise e => (Some e, results)
      end
  | None => (Some IndexError, results)
  end.

(** for i in range(len(compiled)): uproot.tree._delayedraise(calculate(i)) *)
Fixpoint calculate_in_turn (compiled : list pyobject) (arrays : value)
    (indices : list nat) (results : list value) : result (list value) :=
  match indices with
  | [] => Ok results
  | i :: rest =>
      let '(excinfo, results') := calculate compiled arrays i results in
      _ ← uproot_tree_delayedraise excinfo;
      calculate_in_turn compiled arrays rest results'
  end.

(** calcexecutor.map(calculate, range(len(compiled))) *)
Fixpoint executor_map (compiled : list pyobject) (arrays : value)
    (indices : list nat) (results : list value) : list (option exn) * list value :=
  match indices with
  | [] => ([], results)
  | i :: rest =>
      let '(excinfo, results') := calculate compiled arrays i results in
      let '(excinfos, results'') := executor_map compiled arrays rest results' in
      (excinfo :: excinfos, results'')
  end.

Definition iterate_locals : list string :=
  ["self"; "exprs"; "outputtype"; "calcexecutor"; "uproot"; "fcns"; "dictnames";
   "dictname"; "finish"; "compiled"; "branchnames"; "entryvars"; "excinfos";
   "arrays"; "excinfo"; "results"; "calculate"; "i"].

(** for excinfo in excinfos: _delayedraise(excinfo) *)
Fixpoint raise_deferred (excinfos : list (option exn)) : result unit :=
  match excinfos with
  | [] => Ok tt
  | excinfo :: rest =>
      f ← load_name iterate_locals "_delayedraise";
      _ ← match f return result unit with
          | PyFunction _ => Raise Unsupported
          | _ => Raise (TypeError "object is not callable")
          end;
      raise_deferred rest
  end.

(** What the loop does with the exceptions of the chunk before: it
    raises them, or else yields that chunk's record and carries on.
    [excinfos] is [None] until a first chunk has been computed. *)
Definition flush (finish : list value -> record)
    (excinfos : option (list (option exn))) (results : list value)
    (continue : trace) : trace :=
  match excinfos with
  | None => continue
  | Some pending =>
      match raise_deferred pending with
      | Raise e => ([], Some e)
      | Ok _ => emit (Yield (finish results)) continue
      end
  end.

(** The outputs of one chunk: in turn, raising at once, when there is
    no executor; through the executor's map otherwise. *)
Definition calculate_chunk (compiled : list pyobject) (calcexecutor : option executor)
    (arrays : value) : result (list (option exn) * list value) :=
  let results := replicate (length compiled) VNone in
  let indices := seq 0 (length compiled) in
  match calcexecutor with
  | None =>
      results' ← calculate_in_turn compiled arrays indices results;
      Ok ([], results')
  | Some _ => Ok (executor_map compiled arrays indices results)
  end.

(** The loop over the chunks and the code after it. *)
Fixpoint iterate_loop (compiled : list pyobject) (finish : list value -> record)
    (calcexecutor : option executor) (chunks : list (list value))
    (excinfos : option (list (option exn))) (results : list value) : trace :=
  match chunks with
  | [] => flush finish excinfos results ([], None)
  | arrays :: rest =>
      emit (Fetch arrays)
        (flush finish excinfos results
           match calculate_chunk compiled calcexecutor (VTuple arrays) with
           | Raise e => ([], Some e)
           | Ok (excinfos', results') =>
               iterate_loop compiled finish calcexecutor rest (Some excinfos') results'
           end)
  end.

(** ChainSource._iterate *)
Definition ChainSource_iterate (s : ChainSource) (branchnames : list string)
    (hasentryvar : bool) : list (list value) :=
  (fun '(entrystart, entrystop, arrays) =>
     if hasentryvar then arrays ++ [arange entrystart entrystop] else arrays)
  <$> tree s branchnames.

(** keyword.iskeyword *)
Definition kwlist : list string :=
  ["False"; "None"; "True"; "and"; "as"; "assert"; "break"; "class"; "continue";
   "def"; "del"; "elif"; "else"; "except"; "finally"; "for"; "from"; "global";
   "if"; "import"; "in"; "is"; "lambda"; "nonlocal"; "not"; "or"; "pass";
   "raise"; "return"; "try"; "while"; "with"; "yield"].

Definition iskeyword (x : string) : bool := bool_decide (x ∈ kwlist).

(** repr of a display name *)
Definition repr (dictname : option string) : string :=
  match dictname with
  | Some s => "'" +:+ s +:+ "'"
  | None => "None"
  end.

Section to_numba.

(** ast.parse, giving the body of the parsed module, or nothing on a
    SyntaxError; and math.__dict__. *)
Variable ast_parse : string -> option (list ast.node).
Variable math_dict : gmap string pyobject.

Definition string2fcn (text : string) : result pyobject :=
  match ast_parse text with
  | None => Raise (SyntaxError text)
  | Some body =>
      '(insymbols, outsymbols) ← recurse (ast.List body) (∅, ∅);
      if decide (length body = 0%nat)
      then Raise (TypeError "string contains no expressions")
      else
        module ← parse_def (sorted insymbols);
        code ← compile {| def_name := def_name module;
                          def_args := def_args module;
                          def_body := return_last body |} text;
        makefcn code math_dict "fcn"
  end.


(** collections.namedtuple(typename, field_names), which checks the
    names itself and may raise. *)
Variable namedtuple : string -> list (option string) -> result container.

(** *** ChainStep *)

Definition _tofcn (self : step) (expr : expression) : result (pyobject * list string) :=
  expr' ← match expr with
          | Text s => string2fcn s
          | Callable f => Ok (PyFunction f)
          | NotAnExpression => Ok (PyOpaque "object")
          end;
  compilefcn ← getattr_compilefcn self;
  match expr' with
  | PyFunction f => Ok (compilefcn expr', co_varnames f)
  | _ => Raise (AttributeError "__code__")
  end.

Definition entry_of (self : step) (x : expression) (dictname : option string)
    : result fcn_entry :=
  '(fcn, requirements) ← _tofcn self x;
  Ok (fcn, requirements,
      match x with
      | Callable f => CacheId (fn_id f)
      | Text s => CacheText s
      | NotAnExpression => CacheId 0
      end,
      dictname).

Definition default_dictname (x : expression) : option string :=
  match x with
  | Text s => Some s
  | Callable f => fn_name f
  | NotAnExpression => None
  end.

Definition exprs_TypeError : exn :=
  TypeError "exprs must be a dict of strings or functions, iterable of strings or functions, a single string, or a single function".

Definition _tofcns (self : step) (exprs : exprs_arg) : result (list fcn_entry) :=
  match exprs with
  | Single NotAnExpression => Raise exprs_TypeError
  | Single x =>
      e ← entry_of self x (default_dictname x);
      Ok [e]
  | Mapping items =>
      if forallb is_expression items.*2
      then mapM (fun '(n, x) => entry_of self x (Some n)) items
      else (* iterating a dict gives its keys, which are strings *)
        mapM (fun '(n, _) => entry_of self (Text n) (Some n)) items
  | Iterable xs =>
      if forallb is_expression xs
      then mapM (fun x => entry_of self x (default_dictname x)) xs
      else Raise exprs_TypeError
  end.

Definition satisfy_all (self : step) (fcns : list fcn_entry) : accumulator :=
  foldl (fun acc '(fcn, requirements, cacheid, dictname) =>
           foldl (fun acc requirement => _satisfy self requirement acc) acc requirements)
        ([], false) fcns.

Definition _compilefcns (self : step) (fcns : list fcn_entry)
    : result (list pyobject * list string * bool) :=
  let '(branchnames, entryvars) := satisfy_all self fcns in
  compiled ← mapM (fun '(fcn, requirements, cacheid, dictname) =>
                     argfcns ← mapM (fun requirement =>
                                       _argfcn self requirement branchnames)
                                    requirements;
                     compilefcn ← getattr_compilefcn self;
                     Ok (compilefcn (make_cfcn fcn argfcns)))
                  fcns;
  Ok (compiled, branchnames, entryvars).

Definition _isidentifier (dictname : option string) : bool :=
  match dictname with
  | None => false
  | Some s =>
      match ast_parse s with
      | Some [ast.AST ast.Expr [ast.Name _ _]] => true
      | _ => false
      end
  end.

Fixpoint check_field_names (dictnames : list (option string)) : result unit :=
  match dictnames with
  | [] => Ok tt
  | dictname :: rest =>
      if _isidentifier dictname then check_field_names rest
      else Raise (ValueError ("illegal field name for namedtuple: " +:+ repr dictname))
  end.

Definition resolve_outputtype (ot : outputtype) (dictnames : list (option string))
    : result container :=
  match ot with
  | NamedtupleFactory =>
      _ ← check_field_names dictnames;
      namedtuple "Arrays" dictnames
  | Container c => Ok c
  end.

(** The part of iterate that runs before the source is asked for a
    chunk. *)
Definition iterate_setup (self : step) (exprs : exprs_arg) (ot : outputtype)
    : result (list (option string) * container * list pyobject * list string * bool) :=
  fcns ← _tofcns self exprs;
  let dictnames := dictname_of <$> fcns in
  c ← resolve_outputtype ot dictnames;
  '(compiled, branchnames, entryvars) ← _compilefcns self fcns;
  Ok (dictnames, c, compiled, branchnames, entryvars).

Definition iterate (self : step) (exprs : exprs_arg) (ot : outputtype)
    (calcexecutor : option executor) : trace :=
  match iterate_setup self exprs ot with
  | Raise e => ([], Some e)
  | Ok (dictnames, c, compiled, branchnames, entryvars) =>
      iterate_loop compiled (finish c dictnames) calcexecutor
        (ChainSource_iterate (source self) branchnames entryvars) None []
  end.

(** *** Define.__init__ and ChainStep.define *)

Definition Define_init (previous : step) (exprs : exprs_arg)
    (more_exprs : list (string * expression)) : result step :=
  match exprs with
  | Mapping items =>
      let exprs := foldl (fun d kv => dict_set kv.1 kv.2 d) items more_exprs in
      if existsb (fun x => negb (_isidentifier (Some x)) || iskeyword x) exprs.*1
      then Raise (TypeError "all names in exprs must be identifiers (and strings!)")
      else
        fcns ← _tofcns (Define previous ∅ ∅) (Mapping exprs);
        Ok (foldl (fun self '(fcn, requirements, cacheid, dictname) =>
                     match self, dictname with
                     | Define p fs rs, Some n =>
                         Define p (<[n := fcn]> fs) (<[n := requirements]> rs)
                     | _, _ => self
                     end)
                  (Define previous ∅ ∅) fcns)
  | _ => Raise (TypeError "exprs must be a dict")
  end.

Definition define (self : step) (exprs : exprs_arg)
    (more_exprs : list (string * expression)) : result step :=
  Define_init self exprs more_exprs.

(** *** TTreeMethods_numba *)

Definition TTreeMethods_numba_iterate (s : ChainSource) (exprs : exprs_arg)
    (ot : outputtype) (calcexecutor : option executor) : trace :=
  iterate (Source s) exprs ot calcexecutor.

Definition TTreeMethods_numba_define (s : ChainSource) (exprs : exprs_arg)
    (more_exprs : list (string * expression)) : result step :=
  define (Source s) exprs more_exprs.

End to_numba.

(** ** Sample inputs

    The trees ast.parse gives for the texts used in the examples. *)
Module sample.

Definition name (x : string) : ast.node := ast.Name x ast.Load.
Definition num (n : Z) : ast.node := ast.AST ast.Num [ast.Atom (ast.CInt n)].
Definition op (cls : ast.class) (l r : ast.node) : ast.node :=
  ast.AST ast.BinOp [l; ast.AST cls []; r].
Definition expr (e : ast.node) : ast.node := ast.AST ast.Expr [e].
Definition assign (x : string) (e : ast.node) : ast.node :=
  ast.AST ast.Assign [ast.List [ast.Name x ast.Store]; e].

Definition assign_then_read : string := "x = 2
x + 1".

Definition parse (text : string) : option (list ast.node) :=
  if decide (text = "") then Some []
  else if decide (text = "a + b") then Some [expr (op ast.Add (name "a") (name "b"))]
  else if decide (text = assign_then_read) then
    Some [assign "x" (num 2); expr (op ast.Add (name "x") (num 1))]
  else if decide (text = "x * 2") then Some [expr (op ast.Mult (name "x") (num 2))]
  else if decide (text = "x + 1") then Some [expr (op ast.Add (name "x") (num 1))]
  else if decide (text = "x") then Some [expr (name "x")]
  else if decide (text = "y") then Some [expr (name "y")]
  else if decide (text = "r") then Some [expr (name "r")]
  else if decide (text = "c") then Some [expr (name "c")]
  else if decide (text = "break") then Some [ast.AST ast.Break []]
  else if decide (text = "def f(): pass") then
    Some [ast.FunctionDef
            [ast.Atom (ast.CStr "f");
             ast.AST (ast.OtherClass "arguments") [ast.List []; ast.List []];
             ast.List [ast.AST ast.Pass []];
             ast.List [];
             ast.Atom ast.CNone]]
  else None.

Definition math : gmap string pyobject := ∅.

Definition namedtuple (typename : string) (fields : list (option string))
    : result container :=
  Ok (Cnamed typename fields).

(** A tree with columns "x" (the entry numbers) and "c" (ten times
    them); a column it does not have reads as zeros. *)
Definition column (branch : string) (entrystart entrystop : Z) : value :=
  let entries := (fun i => entrystart + Z.of_nat i)
                 <$> seq 0 (Z.to_nat (entrystop - entrystart)) in
  if decide (branch = "x") then VArray entries
  else if decide (branch = "c") then VArray (Z.mul 10 <$> entries)
  else VArray ((fun _ => 0) <$> entries).

Definition chunk (branches : list string) (entrystart entrystop : Z)
    : Z * Z * list value :=
  (entrystart, entrystop, (fun b => column b entrystart entrystop) <$> branches).

Definition three_chunks (branches : list string) : list (Z * Z * list value) :=
  [chunk branches 0 2; chunk branches 2 4; chunk branches 4 6].

Definition one_chunk (branches : list string) : list (Z * Z * list value) :=
  [chunk branches 100 150].

Definition plain (t : list string -> list (Z * Z * list value)) : ChainSource :=
  {| tree := t; aliases := ∅; entryvar := None; numba := NumbaOff |}.

Definition aliased (t : list string -> list (Z * Z * list value)) : ChainSource :=
  {| tree := t; aliases := {["r" := "c"]}; entryvar := None; numba := NumbaOff |}.

Definition indexed (t : list string -> list (Z * Z * list value)) : ChainSource :=
  {| tree := t; aliases := ∅; entryvar := Some "entry"; numba := NumbaOff |}.

(** def fails_from_two(x): raises on a chunk that starts at entry 2 *)
Definition fails_from_two : pyfunction :=
  {| fn_name := Some "fails_from_two";
     fn_id := 1;
     co_argnames := ["x"];
     co_localnames := [];
     fn_body := fun args =>
       match args with
       | [VArray (2 :: _)] => Raise (UserException 7)
       | [v] => Ok v
       | _ => Raise (TypeError "wrong number of arguments")
       end |}.

(** def with_local(a, b): c = a + b; return c *)
Definition with_local : pyfunction :=
  {| fn_name := Some "with_local";
     fn_id := 2;
     co_argnames := ["a"; "b"];
     co_localnames := ["c"];
     fn_body := fun args =>
       match args with
       | [a; b] => binop ast.Add a b
       | _ => Raise (TypeError "wrong number of arguments")
       end |}.

(** A Define step as its constructor means to leave it for
    y = "x * 2": the compiled text and its requirement list. *)
Definition y_doubles_x (previous : step) : step :=
  Define previous
    {[ "y" := PyFunction (closure {| def_name := "fcn"; def_args := ["x"];
                                     def_body := [ast.AST ast.Return
                                                    [op ast.Mult (name "x") (num 2)]] |}
                                  math) ]}
    {[ "y" := ["x"] ]}.

End sample.

(** ** Auxiliary notions for the proofs *)

(** The modelled fragment as inductive predicates, for induction. *)
Inductive SupExpr : ast.node -> Prop :=
| SupNum n : SupExpr (ast.AST ast.Num [ast.Atom (ast.CInt n)])
| SupName id : SupExpr (ast.Name id ast.Load)
| SupBinOp l op r :
    is_Some (int_op op) -> SupExpr l -> SupExpr r ->
    SupExpr (ast.AST ast.BinOp [l; ast.AST op []; r]).

(** [r] is the signed number of [m + 1] bits congruent to [z]. *)
Definition represents (m : nat) (z r : Z) : Prop :=
  - 2 ^ Z.of_nat m <= r < 2 ^ Z.of_nat m /\ exists k, r = z + k * (2 * 2 ^ Z.of_nat m).


(** Two callables that behave alike on every argument list. *)
Definition same_calls (a b : pyobject) : Prop :=
  forall args, call_object a args = call_object b args.

(** What string2fcn makes of a text that is a single bare name [x],
    and the per-chunk evaluator iterate compiles for it. *)
Definition identifier_def (x : string) : funcdef :=
  {| def_name := "fcn";
     def_args := [x];
     def_body := [ast.AST ast.Return [ast.Name x ast.Load]] |}.

Definition identifier_cfcn (s : ChainSource) (math_dict : gmap string pyobject)
    (x : string) : pyobject :=
  ChainSource_compilefcn s
    (make_cfcn (ChainSource_compilefcn s (PyFunction (closure (identifier_def x) math_dict)))
               [ChainSource_compilefcn s (item_getter 0)]).

(** ** Notions for the properties of whole chains *)

(** The raw names a requirement stands for, once the Define steps of
    the chain have replaced each name they define by its requirements. *)
Fixpoint expand (self : step) (requirement : string) : list string :=
  match self with
  | Source _ => [requirement]
  | Step previous => expand previous requirement
  | Define previous _ requirements =>
      match requirements !! requirement with
      | Some reqs => reqs ≫= expand previous
      | None => expand previous requirement
      end
  end.

(** Whether the first step that knows the requirement, walking from
    [self] to the source, is a Define step. *)
Fixpoint defined_on_chain (self : step) (requirement : string) : bool :=
  match self with
  | Source _ => false
  | Step previous => defined_on_chain previous requirement
  | Define previous _ requirements =>
      match requirements !! requirement with
      | Some _ => true
      | None => defined_on_chain previous requirement
      end
  end.

(** Resolving a list of names at the source, one after the other. *)
Definition satisfy_each (s : ChainSource) (acc : accumulator) (names : list string)
    : accumulator :=
  foldl (fun acc requirement => ChainSource_satisfy s requirement acc) acc names.

(** The value a requirement has on a chunk of entries [start, stop)
    whose column for branch b is [col b]. *)
Definition requirement_value (s : ChainSource) (col : string -> value)
    (start stop : Z) (requirement : string) : value :=
  if decide (entryvar s = Some requirement) then arange start stop
  else col (branchname_of s requirement).

(** The number of expressions an argument of iterate holds. *)
Definition exprs_count (exprs : exprs_arg) : nat :=
  match exprs with
  | Single _ => 1
  | Mapping items => length items
  | Iterable xs => length xs
  end.

(** A parser for one more text, next to those of [sample.parse]. *)
Definition parse_with_increment (text : string) : option (list ast.node) :=
  if decide (text = "x = x + 1")
  then Some [sample.assign "x" (sample.op ast.Add (sample.name "x") (sample.num 1))]
  else sample.parse text.

(** The trees ast.parse gives for some further texts. *)
Definition increment_then_read : string := "x = x + 1
x".

Definition parse_further (text : string) : option (list ast.node) :=
  if decide (text = increment_then_read) then
    Some [sample.assign "x" (sample.op ast.Add (sample.name "x") (sample.num 1));
          sample.expr (sample.name "x")]
  else if decide (text = "_x") then Some [sample.expr (sample.name "_x")]
  else if decide (text = "__debug__") then Some [sample.expr (sample.name "__debug__")]
  else if decide (text = "if x: break") then
    Some [ast.AST ast.If [sample.name "x"; ast.List [ast.AST ast.Break []]; ast.List []]]
  else sample.parse text.

(** Sources whose alias table sends r to the entry-index name, and
    __debug__ to the column c. *)
Definition aliased_to_the_index (t : list string -> list (Z * Z * list value)) : ChainSource :=
  {| tree := t; aliases := {["r" := "c"]}; entryvar := Some "c"; numba := NumbaOff |}.

Definition aliased_from_debug (t : list string -> list (Z * Z * list value)) : ChainSource :=
  {| tree := t; aliases := {["__debug__" := "c"]}; entryvar := None; numba := NumbaOff |}.

(** ** collections.namedtuple

    The checks of the standard library on names made of ASCII
    characters: every name an identifier and no keyword, no field name
    starting with an underscore or given twice.  A display name that
    is no string is turned into one by str(). *)
Definition is_letter (a : Ascii.ascii) : bool :=
  let n := Ascii.nat_of_ascii a in
  ((65 <=? n) && (n <=? 90) || (97 <=? n) && (n <=? 122))%nat.

Definition is_digit (a : Ascii.ascii) : bool :=
  let n := Ascii.nat_of_ascii a in ((48 <=? n) && (n <=? 57))%nat.

Definition is_underscore (a : Ascii.ascii) : bool :=
  bool_decide (Ascii.nat_of_ascii a = 95%nat).

Definition is_ascii_text (s : string) : bool :=
  forallb (fun a => (Ascii.nat_of_ascii a <? 128)%nat) (list_ascii_of_string s).

(** str.isidentifier *)
Definition str_isidentifier (s : string) : bool :=
  match list_ascii_of_string s with
  | [] => false
  | a :: rest =>
      (is_letter a || is_underscore a) &&
      forallb (fun b => is_letter b || is_digit b || is_underscore b) rest
  end.

Definition startswith_underscore (s : string) : bool :=
  match list_ascii_of_string s with
  | a :: _ => is_underscore a
  | [] => false
  end.

Fixpoint check_names (names : list string) : result unit :=
  match names with
  | [] => Ok tt
  | name :: rest =>
      if negb (str_isidentifier name)
      then Raise (ValueError ("Type names and field names must be valid identifiers: "
                              +:+ repr (Some name)))
      else if iskeyword name
      then Raise (ValueError ("Type names and field names cannot be a keyword: "
                              +:+ repr (Some name)))
      else check_names rest
  end.

Fixpoint check_fields (seen names : list string) : result unit :=
  match names with
  | [] => Ok tt
  | name :: rest =>
      if startswith_underscore name
      then Raise (ValueError ("Field names cannot start with an underscore: "
                              +:+ repr (Some name)))
      else if decide (name ∈ seen)
      then Raise (ValueError ("Encountered duplicate field name: " +:+ repr (Some name)))
      else check_fields (name :: seen) rest
  end.

Definition collections_namedtuple (typename : string) (field_names : list (option string))
    : result container :=
  let names := default "None" <$> field_names in
  if negb (forallb is_ascii_text (typename :: names)) then Raise Unsupported
  else
    _ ← check_names (typename :: names);
    _ ← check_fields [] names;
    Ok (Cnamed typename field_names).

(** An evaluator for the examples: it gives back the only array of
    the chunk, and fails on a chunk that starts at entry 2. *)
Definition fails_on_entry_two : pyobject :=
  PyFunction {| fn_name := Some "cfcn";
                fn_id := 0;
                co_argnames := ["arrays"];
                co_localnames := [];
                fn_body := fun args =>
                  match args with
                  | [VTuple [VArray (2 :: _)]] => Raise (UserException 7)
                  | [VTuple [v]] => Ok v
                  | _ => Raise (TypeError "unexpected chunk")
                  end |}.

(** * Properties *)

(** ** The result monad *)

Lemma bind_Ok {A B} (a : A) (k : A -> result B) : (Ok a ≫= k) = k a.
Proof. reflexivity. Qed.

Lemma bind_Raise {A B} (e : exn) (k : A -> result B) : (Raise e ≫= k) = Raise e.
Proof. reflexivity. Qed.

Lemma bind_inv_Ok {A B} (m : result A) (k : A -> result B) (b : B) :
  (m ≫= k) = Ok b -> exists a, m = Ok a /\ k a = Ok b.
Proof. destruct m as [a|e]; [eauto | discriminate]. Qed.

Lemma returned_bind {A B} (m1 m2 : result A) (k1 k2 : A -> result B) :
  returned m1 = returned m2 ->
  (forall a, returned (k1 a) = returned (k2 a)) ->
  returned (m1 ≫= k1) = returned (m2 ≫= k2).
Proof.
  intros Hm Hk. destruct m1 as [a1|e1], m2 as [a2|e2]; simpl in *; try done.
  injection Hm as ->. apply Hk.
Qed.

(** ** Arithmetic in 64 bits *)

Lemma pow2_S (m : nat) : 2 ^ Z.of_nat (S m) = 2 * 2 ^ Z.of_nat m.
Proof. rewrite Nat2Z.inj_succ, Z.pow_succ_r by lia. done. Qed.

Lemma pow2_pos (m : nat) : 0 < 2 ^ Z.of_nat m.
Proof. apply Z.pow_pos_nonneg; lia. Qed.

Lemma represents_double m z r :
  represents m z r -> represents (S m) (2 * z) (2 * r).
Proof.
  intros [Hr [k ->]]. unfold represents. rewrite pow2_S. split; [lia|]. exists k. lia.
Qed.

Lemma represents_succ_double m z r :
  represents m z r -> represents (S m) (2 * z + 1) (2 * r + 1).
Proof.
  intros [Hr [k ->]]. unfold represents. rewrite pow2_S. split; [lia|]. exists k. lia.
Qed.

Lemma signed_bits_represents p : forall m, represents m (Zpos p) (signed_bits p (S m)).
Proof.
  induction p as [q IH|q IH|]; intros [|m].
  - split; [simpl; lia|]. exists (- Zpos q - 1). simpl. lia.
  - change (signed_bits q~1 (S (S m))) with (Z.succ_double (signed_bits q (S m))).
    rewrite Z.succ_double_spec, Pos2Z.inj_xI. apply represents_succ_double, IH.
  - split; [simpl; lia|]. exists (- Zpos q). simpl. lia.
  - change (signed_bits q~0 (S (S m))) with (Z.double (signed_bits q (S m))).
    rewrite Z.double_spec, Pos2Z.inj_xO. apply represents_double, IH.
  - split; [simpl; lia|]. exists (-1). simpl. lia.
  - split.
    + change (signed_bits 1 (S (S m))) with 1. pose proof (pow2_pos m). rewrite pow2_S. lia.
    + exists 0. simpl. lia.
Qed.

Lemma not_bits_represents p : forall m, represents m (- Zpos p - 1) (not_bits p (S m)).
Proof.
  induction p as [q IH|q IH|]; intros [|m].
  - split; [simpl; lia|]. exists (Zpos q + 1). simpl. lia.
  - change (not_bits q~1 (S (S m))) with (Z.double (not_bits q (S m))).
    rewrite Z.double_spec, Pos2Z.inj_xI.
    replace (- (2 * Z.pos q + 1) - 1) with (2 * (- Zpos q - 1)) by lia.
    apply represents_double, IH.
  - split; [simpl; lia|]. exists (Zpos q). simpl. lia.
  - change (not_bits q~0 (S (S m))) with (Z.succ_double (not_bits q (S m))).
    rewrite Z.succ_double_spec, Pos2Z.inj_xO.
    replace (- (2 * Z.pos q) - 1) with (2 * (- Zpos q - 1) + 1) by lia.
    apply represents_succ_double, IH.
  - split; [simpl; lia|]. exists 1. simpl. lia.
  - split.
    + change (not_bits 1 (S (S m))) with (-2). pose proof (pow2_pos m). rewrite pow2_S. lia.
    + exists 0. simpl. lia.
Qed.

Lemma neg_bits_represents p : forall m, represents m (Zneg p) (neg_bits p (S m)).
Proof.
  induction p as [q IH|q IH|]; intros [|m].
  - split; [simpl; lia|]. exists (Zpos q). simpl. lia.
  - change (neg_bits q~1 (S (S m))) with (Z.succ_double (not_bits q (S m))).
    rewrite Z.succ_double_spec.
    replace (Z.neg q~1) with (2 * (- Zpos q - 1) + 1) by lia.
    apply represents_succ_double, not_bits_represents.
  - split; [simpl; lia|]. exists (Zpos q). simpl. lia.
  - change (neg_bits q~0 (S (S m))) with (Z.double (neg_bits q (S m))).
    rewrite Z.double_spec.
    replace (Z.neg q~0) with (2 * Zneg q) by lia.
    apply represents_double, IH.
  - split; [simpl; lia|]. exists 0. simpl. lia.
  - split.
    + change (neg_bits 1 (S (S m))) with (-1). pose proof (pow2_pos m). rewrite pow2_S. lia.
    + exists 0. simpl. lia.
Qed.

Lemma represents_mod m z r :
  represents m z r ->
  r = (z + 2 ^ Z.of_nat m) mod (2 * 2 ^ Z.of_nat m) - 2 ^ Z.of_nat m.
Proof.
  intros [Hr [k ->]]. pose proof (pow2_pos m).
  replace (z + 2 ^ Z.of_nat m)
    with ((z + k * (2 * 2 ^ Z.of_nat m) + 2 ^ Z.of_nat m) + (- k) * (2 * 2 ^ Z.of_nat m))
    by lia.
  rewrite Z_mod_plus_full, Z.mod_small by lia. lia.
Qed.

Lemma wrap64_mod z : wrap64 z = (z + 2 ^ 63) mod 2 ^ 64 - 2 ^ 63.
Proof.
  change (2 ^ 64) with (2 * 2 ^ Z.of_nat 63). change (2 ^ 63) with (2 ^ Z.of_nat 63).
  apply represents_mod. destruct z as [|p|p].
  - simpl wrap64. pose proof (pow2_pos 63). split; [lia|exists 0; lia].
  - apply signed_bits_represents.
  - apply neg_bits_represents.
Qed.

Lemma below_pow2_spec p : forall n, below_pow2 p n = (Zpos p <? 2 ^ Z.of_nat n).
Proof.
  induction p as [q IH|q IH|]; intros [|n]; simpl below_pow2.
  - symmetry. apply Z.ltb_ge. simpl. lia.
  - rewrite IH, pow2_S. pose proof (pow2_pos n).
    destruct (Z.ltb_spec (Zpos q) (2 ^ Z.of_nat n)); symmetry; [apply Z.ltb_lt|apply Z.ltb_ge]; lia.
  - symmetry. apply Z.ltb_ge. simpl. lia.
  - rewrite IH, pow2_S. pose proof (pow2_pos n).
    destruct (Z.ltb_spec (Zpos q) (2 ^ Z.of_nat n)); symmetry; [apply Z.ltb_lt|apply Z.ltb_ge]; lia.
  - done.
  - symmetry. apply Z.ltb_lt. rewrite pow2_S. pose proof (pow2_pos n). lia.
Qed.

Lemma upto_pow2_spec p : forall n, upto_pow2 p n = (Zpos p <=? 2 ^ Z.of_nat n).
Proof.
  induction p as [q IH|q IH|]; intros [|n]; simpl upto_pow2.
  - symmetry. apply Z.leb_gt. simpl. lia.
  - rewrite below_pow2_spec, pow2_S. pose proof (pow2_pos n).
    destruct (Z.ltb_spec (Zpos q) (2 ^ Z.of_nat n)); symmetry; [apply Z.leb_le|apply Z.leb_gt]; lia.
  - symmetry. apply Z.leb_gt. simpl. lia.
  - rewrite IH, pow2_S. pose proof (pow2_pos n).
    destruct (Z.leb_spec (Zpos q) (2 ^ Z.of_nat n)); symmetry; [apply Z.leb_le|apply Z.leb_gt]; lia.
  - done.
  - symmetry. apply Z.leb_le. pose proof (pow2_pos (S n)). lia.
Qed.

Lemma fits64_range z : fits64 z = (- 2 ^ 63 <=? z) && (z <? 2 ^ 63).
Proof.
  destruct z as [|p|p]; unfold fits64.
  - done.
  - rewrite below_pow2_spec. change (2 ^ Z.of_nat 63) with (2 ^ 63).
    assert ((- 2 ^ 63 <=? Zpos p) = true) as -> by (apply Z.leb_le; lia). done.
  - rewrite upto_pow2_spec. change (2 ^ Z.of_nat 63) with (2 ^ 63).
    assert ((Zneg p <? 2 ^ 63) = true) as -> by (apply Z.ltb_lt; lia).
    rewrite andb_true_r.
    destruct (Z.leb_spec (Zpos p) (2 ^ 63)); symmetry; [apply Z.leb_le|apply Z.leb_gt]; lia.
Qed.

(** ** Induction on syntax trees *)

Lemma node_ind' (P : ast.node -> Prop) :
  (forall fields, Forall P fields -> P (ast.FunctionDef fields)) ->
  (forall id ctx, P (ast.Name id ctx)) ->
  (forall cls fields, Forall P fields -> P (ast.AST cls fields)) ->
  (forall elems, Forall P elems -> P (ast.List elems)) ->
  (forall c, P (ast.Atom c)) ->
  forall n, P n.
Proof.
  intros HF HN HA HL HC.
  fix IH 1. intros [fields|id ctx|cls fields|elems|c].
  - apply HF. induction fields as [|x l IHl]; constructor; [apply IH | exact IHl].
  - apply HN.
  - apply HA. induction fields as [|x l IHl]; constructor; [apply IH | exact IHl].
  - apply HL. induction elems as [|x l IHl]; constructor; [apply IH | exact IHl].
  - apply HC.
Qed.

(** ** recurse *)

Lemma recurse_AST cls fields st : recurse (ast.AST cls fields) st = recurse_each fields st.
Proof.
  simpl. revert st. induction fields as [|x l IH]; intros st; [done|].
  simpl. destruct (recurse x st); simpl; [apply IH | done].
Qed.

Lemma recurse_List elems st : recurse (ast.List elems) st = recurse_each elems st.
Proof.
  simpl. revert st. induction elems as [|x l IH]; intros st; [done|].
  simpl. destruct (recurse x st); simpl; [apply IH | done].
Qed.

(** [recurse] fails exactly on a tree that holds a FunctionDef, and
    then with the one TypeError. *)
Lemma recurse_FunctionDef n : forall st,
  if has_FunctionDef n then recurse n st = Raise nested_def_error
  else exists st', recurse n st = Ok st'.
Proof.
  induction n as [fields _|id ctx|cls fields IH|elems IH|c] using node_ind'; intros st.
  - done.
  - simpl. eauto.
  - rewrite recurse_AST. simpl. revert st.
    induction IH as [|x l Hx _ IHl]; intros st; simpl; [eauto|].
    specialize (Hx st). destruct (has_FunctionDef x); simpl.
    + by rewrite Hx.
    + destruct Hx as [st' ->]. simpl. apply IHl.
  - rewrite recurse_List. simpl. revert st.
    induction IH as [|x l Hx _ IHl]; intros st; simpl; [eauto|].
    specialize (Hx st). destruct (has_FunctionDef x); simpl.
    + by rewrite Hx.
    + destruct Hx as [st' ->]. simpl. apply IHl.
  - simpl. eauto.
Qed.

Lemma recurse_each_FunctionDef l st :
  if existsb has_FunctionDef l then recurse_each l st = Raise nested_def_error
  else exists st', recurse_each l st = Ok st'.
Proof.
  rewrite <- recurse_List. apply (recurse_FunctionDef (ast.List l)).
Qed.

(** What a successful walk leaves in the two sets: [outsymbols] gains
    the stored names, [insymbols] only grows, and every name read is in
    one of them afterwards. *)
Lemma recurse_symbols n : forall st st',
  recurse n st = Ok st' ->
  st.1 ⊆ st'.1 /\ st'.2 = st.2 ∪ list_to_set (stores n) /\
  (forall x, x ∈ loads n -> x ∈ st'.1 \/ x ∈ st'.2).
Proof.
  assert (Heach : forall l, Forall (fun n => forall st st', recurse n st = Ok st' ->
      st.1 ⊆ st'.1 /\ st'.2 = st.2 ∪ list_to_set (stores n) /\
      (forall x, x ∈ loads n -> x ∈ st'.1 \/ x ∈ st'.2)) l ->
    forall st st', recurse_each l st = Ok st' ->
      st.1 ⊆ st'.1 /\ st'.2 = st.2 ∪ list_to_set (concat (map stores l)) /\
      (forall x, x ∈ concat (map loads l) -> x ∈ st'.1 \/ x ∈ st'.2)).
  { induction 1 as [|x l Hx _ IHl]; intros st st' H; simpl in *.
    - injection H as <-. split; [done|]. split; [set_solver|]. set_solver.
    - apply bind_inv_Ok in H as (st1 & H1 & H2).
      destruct (Hx _ _ H1) as (Ha & Hb & Hc).
      destruct (IHl _ _ H2) as (Ha' & Hb' & Hc').
      split; [set_solver|]. split.
      + rewrite Hb', Hb, list_to_set_app_L. set_solver.
      + intros y Hy. apply elem_of_app in Hy as [Hy|Hy]; [|by apply Hc'].
        destruct (Hc _ Hy) as [?|?]; [left; set_solver | right; set_solver]. }
  induction n as [fields _|id ctx|cls fields IH|elems IH|c] using node_ind';
    intros st st' H.
  - done.
  - simpl in H. injection H as <-. destruct st as [i o]. destruct ctx; simpl;
      try (split; [done|]; split; [set_solver|]; set_solver).
    + case_decide; simpl; (split; [set_solver|]; split; [set_solver|]).
      * intros x Hx. apply list_elem_of_singleton in Hx as ->. by right.
      * intros x Hx. apply list_elem_of_singleton in Hx as ->. left. set_solver.
  - rewrite recurse_AST in H. simpl. by apply Heach.
  - rewrite recurse_List in H. simpl. by apply Heach.
  - simpl in H. injection H as <-. split; [done|]. split; [set_solver|]. set_solver.
Qed.

(** [insymbols] is the set of free names in the specification's
    sense: the reads not preceded, in textual order, by a store. *)
Lemma free_names_app assigned l1 l2 :
  free_names assigned (l1 ++ l2) =
  free_names assigned l1 ++
  free_names (reverse (omap (fun p => if decide (p.2 = ast.Store) then Some p.1 else None) l1)
              ++ assigned) l2.
Proof.
  revert assigned. induction l1 as [|[id ctx] l1 IH]; intros assigned; [done|].
  destruct ctx; simpl; try done.
  - case_decide; simpl; by rewrite IH.
  - rewrite IH, reverse_cons. by rewrite <- app_assoc.
Qed.

Lemma free_names_assigned_equiv a1 a2 l :
  (forall x, x ∈ a1 <-> x ∈ a2) -> free_names a1 l = free_names a2 l.
Proof.
  revert a1 a2. induction l as [|[id ctx] l IH]; intros a1 a2 Heq; [done|].
  destruct ctx; simpl; try by apply IH.
  - destruct (decide (id ∈ a1)), (decide (id ∈ a2)); try (exfalso; naive_solver).
    + by apply IH.
    + f_equal. by apply IH.
  - apply IH. intros x. rewrite !elem_of_cons. naive_solver.
Qed.

Lemma stores_names_of n :
  stores n = omap (fun p => if decide (p.2 = ast.Store) then Some p.1 else None) (names_of n).
Proof.
  assert (Heach : forall l, Forall (fun n => stores n =
      omap (fun p => if decide (p.2 = ast.Store) then Some p.1 else None) (names_of n)) l ->
    concat (map stores l) =
    omap (fun p => if decide (p.2 = ast.Store) then Some p.1 else None)
         (concat (map names_of l))).
  { induction 1 as [|x l Hx _ IHl]; [done|]. simpl. by rewrite omap_app, Hx, IHl. }
  induction n as [fields IH|id ctx|cls fields IH|elems IH|c] using node_ind'; simpl;
    try by apply Heach.
  - by case_decide.
  - done.
Qed.

Lemma recurse_free_names n : forall st st' assigned,
  recurse n st = Ok st' ->
  (forall x, x ∈ assigned <-> x ∈ st.2) ->
  st'.1 = st.1 ∪ list_to_set (free_names assigned (names_of n)).
Proof.
  assert (Heach : forall l, Forall (fun n => forall st st' assigned,
      recurse n st = Ok st' -> (forall x, x ∈ assigned <-> x ∈ st.2) ->
      st'.1 = st.1 ∪ list_to_set (free_names assigned (names_of n))) l ->
    forall st st' assigned, recurse_each l st = Ok st' ->
      (forall x, x ∈ assigned <-> x ∈ st.2) ->
      st'.1 = st.1 ∪ list_to_set (free_names assigned (concat (map names_of l)))).
  { induction 1 as [|x l Hx _ IHl]; intros st st' assigned H Ha; simpl in *.
    - injection H as <-. set_solver.
    - apply bind_inv_Ok in H as (st1 & H1 & H2).
      rewrite free_names_app, list_to_set_app_L.
      rewrite (IHl st1 st'
        (reverse (omap (fun p => if decide (p.2 = ast.Store) then Some p.1 else None)
                       (names_of x)) ++ assigned) H2).
      + rewrite (Hx _ _ _ H1 Ha). set_solver.
      + intros y. destruct (recurse_symbols _ _ _ H1) as (_ & -> & _).
        rewrite <- stores_names_of, elem_of_app, elem_of_reverse, elem_of_union,
          elem_of_list_to_set, Ha. tauto. }
  induction n as [fields _|id ctx|cls fields IH|elems IH|c] using node_ind';
    intros st st' assigned H Ha.
  - done.
  - simpl in H. injection H as <-. destruct st as [i o]. simpl in *.
    destruct ctx; simpl; try set_solver.
    destruct (decide (id ∈ o)), (decide (id ∈ assigned)); simpl;
      try (exfalso; naive_solver); set_solver.
  - rewrite recurse_AST in H. simpl. by eapply Heach.
  - rewrite recurse_List in H. simpl. by eapply Heach.
  - simpl in H. injection H as <-. set_solver.
Qed.

(** ** sorted *)

Lemma sorted_Sorted s : Sorted String.le (sorted s).
Proof. apply (Sorted_merge_sort String.le). Qed.

Lemma elem_of_sorted s x : x ∈ sorted s <-> x ∈ s.
Proof. unfold sorted. by rewrite merge_sort_Permutation, elem_of_elements. Qed.

Lemma sorted_NoDup s : NoDup (sorted s).
Proof. unfold sorted. rewrite merge_sort_Permutation. apply NoDup_elements. Qed.

Lemma sorted_singleton x : sorted {[x]} = [x].
Proof. unfold sorted. by rewrite elements_singleton. Qed.

(** ** return_last *)

Lemma return_last_cons s s' rest :
  return_last (s :: s' :: rest) = s :: return_last (s' :: rest).
Proof. simpl. by destruct s as [| |[] [|? [|]]| |]. Qed.

Lemma return_last_length body : length (return_last body) = length body.
Proof.
  induction body as [|s [|s' rest] IH]; [done| |].
  - by destruct s as [| |[] [|? [|]]| |].
  - rewrite return_last_cons. simpl in *. by rewrite IH.
Qed.

Lemma return_last_stores body :
  concat (map stores (return_last body)) = concat (map stores body).
Proof.
  induction body as [|s [|s' rest] IH]; [done| |].
  - by destruct s as [| |[] [|? [|]]| |].
  - rewrite return_last_cons. simpl in *. by rewrite IH.
Qed.

Lemma return_last_modelled body :
  forallb modelled (return_last body) = forallb modelled body.
Proof.
  induction body as [|s [|s' rest] IH]; [done| |].
  - by destruct s as [| |[] [|? [|]]| |].
  - rewrite return_last_cons. simpl in *. by rewrite IH.
Qed.

Lemma return_last_loop_exits body :
  concat (map loop_exits (return_last body)) = concat (map loop_exits body).
Proof.
  induction body as [|s [|s' rest] IH]; [done| |].
  - by destruct s as [| |[] [|? [|]]| |].
  - rewrite return_last_cons. simpl in *. by rewrite IH.
Qed.


(** ** The modelled fragment *)

Lemma supported_expr_SupExpr e : supported_expr e = true -> SupExpr e.
Proof.
  induction e as [fields _|id ctx|cls fields IH|elems IH|c] using node_ind';
    simpl; try done.
  - destruct ctx; try done. constructor.
  - destruct cls; try done.
    + destruct fields as [|l [|o [|r [|]]]]; simpl; try done;
        destruct o as [| |op [|]| |]; simpl; try done.
      intros H. apply andb_prop in H as [H Hr]. apply andb_prop in H as [Hop Hl].
      apply Forall_cons in IH as [IHl IH]. apply Forall_cons in IH as [_ IH].
      apply Forall_cons in IH as [IHr _].
      constructor; [by apply bool_decide_eq_true in Hop | by apply IHl | by apply IHr].
    + destruct fields as [|[| | | |[]] [|]]; simpl; try done. constructor.
Qed.

Lemma SupExpr_no_FunctionDef e : SupExpr e -> has_FunctionDef e = false.
Proof. induction 1 as [| |l op r _ _ IHl _ IHr]; simpl; [done..|]. by rewrite IHl, IHr. Qed.

(** ** The texts of the specification *)

(** The two texts of the specification: "a + b" takes a and b and gives
    5 for 2 and 3; the assignment text takes no parameter and gives 3. *)
Example string2fcn_a_plus_b :
  match string2fcn sample.parse sample.math "a + b" with
  | Ok (PyFunction f) =>
      co_argnames f = ["a"; "b"] /\ pycall f [VInt 2; VInt 3] = Ok (VInt 5)
  | _ => False
  end.
Proof. vm_compute. done. Qed.

Example string2fcn_assign_then_read :
  match string2fcn sample.parse sample.math sample.assign_then_read with
  | Ok (PyFunction f) => co_argnames f = [] /\ pycall f [] = Ok (VInt 3)
  | _ => False
  end.
Proof. vm_compute. done. Qed.

(** C5 fails on the code. The text that increments x and then reads
    it has the free name x: evaluated directly with x bound to 1 it
    gives 2, and with nothing bound it fails on x. The function
    [string2fcn] makes of it has no parameter, because the walk meets
    the target of the assignment before the value assigned; called
    with no argument it fails on its unbound local x, and it accepts
    no argument. *)
Lemma string2fcn_misses_the_name_it_increments :
  match parse_further increment_then_read with
  | Some body =>
      eval_direct body {[ "x" := VInt 1 ]} = Ok (VInt 2) /\
      eval_direct body ∅ = Raise (NameError "x")
  | None => False
  end /\
  match string2fcn parse_further sample.math increment_then_read with
  | Ok (PyFunction f) =>
      co_argnames f = [] /\
      pycall f [] = Raise (UnboundLocalError "x") /\
      pycall f [VInt 1] = Raise (TypeError "wrong number of arguments")
  | _ => False
  end.
Proof. vm_compute. done. Qed.

(** ** What string2fcn accepts *)




Example string2fcn_break_in_if :
  string2fcn parse_further sample.math "if x: break" =
  Raise (SyntaxError "'break' outside loop").
Proof. vm_compute. reflexivity. Qed.

Example string2fcn_reserved_name :
  string2fcn parse_further sample.math "__debug__" =
  Raise (SyntaxError "cannot assign to __debug__").
Proof. vm_compute. reflexivity. Qed.

Example string2fcn_empty_text :
  string2fcn sample.parse sample.math "" =
  Raise (TypeError "string contains no expressions").
Proof. vm_compute. reflexivity. Qed.

Example string2fcn_def_text :
  string2fcn sample.parse sample.math "def f(): pass" = Raise nested_def_error.
Proof. vm_compute. reflexivity. Qed.

(** ** Requirement lists *)

(** The requirement list of a callable is its whole [co_varnames]:
    the declared parameters, then every other local variable. *)
Lemma tofcn_Callable ast_parse math_dict s f :
  _tofcn ast_parse math_dict (Source s) (Callable f) =
  Ok (ChainSource_compilefcn s (PyFunction f), co_argnames f ++ co_localnames f).
Proof. reflexivity. Qed.

(** C3 fails on the code. For the text that assigns x and then reads
    it, no name is free, and the requirement list still holds x. *)
Lemma tofcn_requires_assigned_name :
  free_names [] (names_of (ast.List
    [sample.assign "x" (sample.num 2);
     sample.expr (sample.op ast.Add (sample.name "x") (sample.num 1))])) = [] /\
  match _tofcn sample.parse sample.math (Source (sample.plain sample.three_chunks))
               (Text sample.assign_then_read) with
  | Ok (_, requirements) => requirements = ["x"]
  | Raise _ => False
  end.
Proof. split; vm_compute; reflexivity. Qed.

Example tofcn_requires_local_of_callable :
  match _tofcn sample.parse sample.math (Source (sample.plain sample.three_chunks))
               (Callable sample.with_local) with
  | Ok (_, requirements) => requirements = ["a"; "b"; "c"]
  | Raise _ => False
  end.
Proof. vm_compute. reflexivity. Qed.

(** ** Define *)

Lemma Define_satisfy_defined previous fcn requirements requirement reqs acc :
  requirements !! requirement = Some reqs ->
  _satisfy (Define previous fcn requirements) requirement acc =
  foldl (fun acc req => _satisfy previous req acc) acc reqs.
Proof. intros H. simpl. by rewrite H. Qed.

Lemma Define_satisfy_delegates previous fcn requirements requirement acc :
  requirements !! requirement = None ->
  _satisfy (Define previous fcn requirements) requirement acc =
  _satisfy previous requirement acc.
Proof. intros H. simpl. by rewrite H. Qed.

Lemma Define_argfcn_delegates previous fcn requirements requirement branchnames :
  requirements !! requirement = None ->
  _argfcn (Define previous fcn requirements) requirement branchnames =
  _argfcn previous requirement branchnames.
Proof. intros H. simpl. by rewrite H. Qed.

(** A name the step defines has no fetcher: building it reads the
    name fcn, which nothing binds. *)
Lemma Define_argfcn_defined previous fcn requirements requirement reqs branchnames :
  requirements !! requirement = Some reqs ->
  _argfcn (Define previous fcn requirements) requirement branchnames =
  Raise (NameError "fcn").
Proof. intros H. simpl. by rewrite H. Qed.

(** C1 fails on the code. With y defined as "x * 2" over a source,
    resolving y succeeds and collects the column x, and asking for the
    fetcher of y with that column list raises NameError. *)
Lemma Define_resolves_but_cannot_fetch :
  _satisfy (sample.y_doubles_x (Source (sample.plain sample.three_chunks))) "y" ([], false)
    = (["x"], false) /\
  _argfcn (sample.y_doubles_x (Source (sample.plain sample.three_chunks))) "y" ["x"]
    = Raise (NameError "fcn").
Proof. split; vm_compute; reflexivity. Qed.

(** C4 fails on the code. Registering y as "x * 2" never builds the
    step: compiling the text asks the new step for [_compilefcn], which
    only a source has. *)
Lemma Define_init_raises_AttributeError :
  Define_init sample.parse sample.math (Source (sample.plain sample.three_chunks))
              (Mapping [("y", Text "x * 2")]) [] =
  Raise (AttributeError "_compilefcn").
Proof. vm_compute. reflexivity. Qed.

(** On a step that did hold y with the requirement list of "x * 2",
    resolving y would collect what resolving x collects. *)
Lemma Define_satisfy_y_is_satisfy_x previous acc :
  _satisfy (sample.y_doubles_x previous) "y" acc = _satisfy previous "x" acc.
Proof.
  unfold sample.y_doubles_x.
  erewrite Define_satisfy_defined by apply lookup_singleton_eq. reflexivity.
Qed.

(** ** The source *)

Lemma index_of_None x l : index_of x l = None <-> x ∉ l.
Proof.
  unfold index_of. destruct (list_find (fun y => y = x) l) as [[i y]|] eqn:H; simpl.
  - apply list_find_Some in H as (Hi & -> & _). split; [done|].
    intros Hn. exfalso. apply Hn. by eapply list_elem_of_lookup_2.
  - split; [|done]. intros _ Hin.
    rewrite list_find_None, Forall_forall in H. by apply (H x).
Qed.

Lemma index_of_Some x l i : index_of x l = Some i -> l !! i = Some x.
Proof.
  unfold index_of. destruct (list_find (fun y => y = x) l) as [[j y]|] eqn:H; [|done].
  simpl. intros [= <-]. by apply list_find_Some in H as (Hi & -> & _).
Qed.

Lemma ChainSource_satisfy_entryvar s requirement acc :
  entryvar s = Some requirement ->
  ChainSource_satisfy s requirement acc = (acc.1, true).
Proof. intros H. unfold ChainSource_satisfy. by rewrite decide_True. Qed.

Lemma item_getter_call index arrays :
  call_object (item_getter index) [arrays] = getitem arrays index.
Proof. reflexivity. Qed.

Lemma arange_100_150 : arange 100 150 = VArray (Z.of_nat <$> seq 100 50).
Proof. vm_compute. reflexivity. Qed.

(** C6. When the requirement is the source's entry-index name:
    resolving it leaves the column list as it was and sets the flag;
    its fetcher reads the chunk at the position just past the columns;
    a chunk of entries [100, 150) comes out of [_iterate] with the
    array 100, 101, ..., 149 appended; and the fetcher, applied to that
    chunk, gives this array. *)
Theorem entry_index_is_generated (s : ChainSource) (name : string) :
  entryvar s = Some name ->
  keeps_contract (ChainSource_compilefcn s) ->
  (forall acc, _satisfy (Source s) name acc = (acc.1, true)) /\
  (forall branchnames, exists f,
     _argfcn (Source s) name branchnames = Ok f /\
     (forall chunk, call_object f [VTuple chunk] =
                    getitem (VTuple chunk) (length branchnames)) /\
     (forall arrays, length arrays = length branchnames ->
        call_object f [VTuple (arrays ++ [arange 100 150])] =
        Ok (VArray (Z.of_nat <$> seq 100 50)))) /\
  (forall branchnames i arrays,
     tree s branchnames !! i = Some (100, 150, arrays) ->
     ChainSource_iterate s branchnames true !! i =
     Some (arrays ++ [VArray (Z.of_nat <$> seq 100 50)])).
Proof.
  intros Hname Hcontract. split; [|split].
  - intros acc. simpl. by apply ChainSource_satisfy_entryvar.
  - intros branchnames. simpl. unfold ChainSource_argfcn.
    rewrite decide_True by done. simpl. eexists. split; [reflexivity|].
    split.
    + intros chunk. by rewrite Hcontract, item_getter_call.
    + intros arrays Hlen. rewrite Hcontract, item_getter_call. simpl.
      rewrite <- Hlen, list_lookup_middle by done. by rewrite arange_100_150.
  - intros branchnames i arrays Hi. unfold ChainSource_iterate.
    rewrite list_lookup_fmap, Hi. simpl. by rewrite arange_100_150.
Qed.

Lemma entry_index_is_generated_witness :
  (forall acc, _satisfy (Source (sample.indexed sample.one_chunk)) "entry" acc
               = (acc.1, true)) /\
  (forall branchnames, exists f,
     _argfcn (Source (sample.indexed sample.one_chunk)) "entry" branchnames = Ok f /\
     (forall chunk, call_object f [VTuple chunk] =
                    getitem (VTuple chunk) (length branchnames)) /\
     (forall arrays, length arrays = length branchnames ->
        call_object f [VTuple (arrays ++ [arange 100 150])] =
        Ok (VArray (Z.of_nat <$> seq 100 50)))) /\
  (forall branchnames i arrays,
     tree (sample.indexed sample.one_chunk) branchnames !! i = Some (100, 150, arrays) ->
     ChainSource_iterate (sample.indexed sample.one_chunk) branchnames true !! i =
     Some (arrays ++ [VArray (Z.of_nat <$> seq 100 50)])).
Proof.
  apply (entry_index_is_generated (sample.indexed sample.one_chunk) "entry").
  - reflexivity.
  - intros o args. reflexivity.
Defined.

(** Requesting the index next to a column, on the sample source. *)
Example iterate_with_entry_index :
  iterate sample.parse sample.math sample.namedtuple
    (Source (sample.indexed sample.one_chunk))
    (Iterable [Text "x";
               Callable {| fn_name := Some "index"; fn_id := 3;
                           co_argnames := ["entry"]; co_localnames := [];
                           fn_body := fun args =>
                             match args with
                             | [v] => Ok v
                             | _ => Raise (TypeError "wrong number of arguments")
                             end |}])
    (Container Clist) None =
  ([Fetch [VArray (Z.of_nat <$> seq 100 50); VArray (Z.of_nat <$> seq 100 50)];
    Yield (RList [VArray (Z.of_nat <$> seq 100 50); VArray (Z.of_nat <$> seq 100 50)])],
   None).
Proof. vm_compute. reflexivity. Qed.

(** Resolving at the source only appends, and leaves the branch of
    the requirement in the list. *)
Lemma ChainSource_satisfy_grows s requirement acc :
  acc.1 `prefix_of` (ChainSource_satisfy s requirement acc).1.
Proof.
  unfold ChainSource_satisfy. case_decide; [done|].
  destruct (index_of _ _); [done|]. simpl. by apply prefix_app_r.
Qed.

Lemma ChainSource_satisfy_adds s requirement acc :
  entryvar s <> Some requirement ->
  branchname_of s requirement ∈ (ChainSource_satisfy s requirement acc).1.
Proof.
  intros H. unfold ChainSource_satisfy. rewrite decide_False by done.
  destruct (index_of _ _) eqn:Hi; simpl.
  - apply index_of_Some in Hi. by eapply list_elem_of_lookup_2.
  - set_solver.
Qed.

(** The source's half of the consistency of resolve and fetcher: once
    a requirement has been resolved, however much is resolved after
    it, its fetcher can be built and reads the requirement's column. *)
Lemma ChainSource_argfcn_after_satisfy s requirement branchnames :
  (entryvar s <> Some requirement -> branchname_of s requirement ∈ branchnames) ->
  exists index,
    ChainSource_argfcn s requirement branchnames =
      Ok (ChainSource_compilefcn s (item_getter index)) /\
    (entryvar s = Some requirement -> index = length branchnames) /\
    (entryvar s <> Some requirement ->
     branchnames !! index = Some (branchname_of s requirement)).
Proof.
  intros H. unfold ChainSource_argfcn. case_decide as He.
  - simpl. eexists. split; [done|]. split; done.
  - destruct (index_of _ _) as [i|] eqn:Hi.
    + simpl. eexists. split; [done|]. split; [done|]. intros _. by apply index_of_Some.
    + apply index_of_None in Hi. by destruct Hi; apply H.
Qed.

(** ** The loop of iterate *)

Section loop_ext.

Context {X : Type} (g : record -> X).
Variables compiled1 compiled2 : list pyobject.
Variables finish1 finish2 : list value -> record.
Hypothesis Hcompiled : Forall2 same_calls compiled1 compiled2.
Hypothesis Hfinish : forall results, g (finish1 results) = g (finish2 results).

Lemma calculate_ext arrays i results :
  calculate compiled1 arrays i results = calculate compiled2 arrays i results.
Proof.
  unfold calculate. destruct (compiled1 !! i) as [a|] eqn:H1.
  - destruct (Forall2_lookup_l _ _ _ _ _ Hcompiled H1) as (b & -> & Hab).
    by rewrite Hab.
  - apply lookup_ge_None in H1. rewrite (Forall2_length _ _ _ Hcompiled) in H1.
    apply lookup_ge_None in H1. by rewrite H1.
Qed.

Lemma calculate_in_turn_ext arrays indices results :
  calculate_in_turn compiled1 arrays indices results =
  calculate_in_turn compiled2 arrays indices results.
Proof.
  revert results. induction indices as [|i rest IH]; intros results; [done|].
  simpl. rewrite calculate_ext.
  destruct (calculate compiled2 arrays i results) as [excinfo results'].
  destruct (uproot_tree_delayedraise excinfo); simpl; [apply IH | done].
Qed.

Lemma executor_map_ext arrays indices results :
  executor_map compiled1 arrays indices results =
  executor_map compiled2 arrays indices results.
Proof.
  revert results. induction indices as [|i rest IH]; intros results; [done|].
  simpl. rewrite calculate_ext.
  destruct (calculate compiled2 arrays i results) as [excinfo results'].
  by rewrite IH.
Qed.

Lemma calculate_chunk_ext calcexecutor arrays :
  calculate_chunk compiled1 calcexecutor arrays =
  calculate_chunk compiled2 calcexecutor arrays.
Proof.
  unfold calculate_chunk. rewrite <- (Forall2_length _ _ _ Hcompiled).
  destruct calcexecutor; [by rewrite executor_map_ext|].
  by rewrite calculate_in_turn_ext.
Qed.

Lemma flush_ext excinfos results (t1 t2 : trace) :
  trace_map g t1 = trace_map g t2 ->
  trace_map g (flush finish1 excinfos results t1) =
  trace_map g (flush finish2 excinfos results t2).
Proof.
  intros Ht. unfold flush. destruct excinfos as [pending|]; [|done].
  destruct (raise_deferred pending); [|done].
  destruct t1 as [l1 o1], t2 as [l2 o2]. unfold trace_map, emit in *.
  simpl in *. injection Ht as Hl Ho. rewrite Hfinish, Ho.
  f_equal. f_equal. exact Hl.
Qed.

Lemma iterate_loop_ext calcexecutor chunks : forall excinfos results,
  trace_map g (iterate_loop compiled1 finish1 calcexecutor chunks excinfos results) =
  trace_map g (iterate_loop compiled2 finish2 calcexecutor chunks excinfos results).
Proof.
  induction chunks as [|arrays rest IH]; intros excinfos results; simpl.
  - by apply flush_ext.
  - assert (Hrest :
      trace_map g
        (flush finish1 excinfos results
           match calculate_chunk compiled1 calcexecutor (VTuple arrays) with
           | Raise e => ([], Some e)
           | Ok (excinfos', results') =>
               iterate_loop compiled1 finish1 calcexecutor rest (Some excinfos') results'
           end) =
      trace_map g
        (flush finish2 excinfos results
           match calculate_chunk compiled2 calcexecutor (VTuple arrays) with
           | Raise e => ([], Some e)
           | Ok (excinfos', results') =>
               iterate_loop compiled2 finish2 calcexecutor rest (Some excinfos') results'
           end)).
    { apply flush_ext. rewrite calculate_chunk_ext.
      destruct (calculate_chunk compiled2 calcexecutor (VTuple arrays))
        as [[excinfos' results']|]; [apply IH | done]. }
    revert Hrest. generalize
      (flush finish1 excinfos results
         match calculate_chunk compiled1 calcexecutor (VTuple arrays) with
         | Raise e => ([], Some e)
         | Ok (excinfos', results') =>
             iterate_loop compiled1 finish1 calcexecutor rest (Some excinfos') results'
         end).
    generalize
      (flush finish2 excinfos results
         match calculate_chunk compiled2 calcexecutor (VTuple arrays) with
         | Raise e => ([], Some e)
         | Ok (excinfos', results') =>
             iterate_loop compiled2 finish2 calcexecutor rest (Some excinfos') results'
         end).
    intros [l2 o2] [l1 o1]. unfold trace_map, emit. simpl.
    intros [= Hl Ho]. rewrite Ho. f_equal. f_equal. exact Hl.
Qed.

End loop_ext.

Lemma trace_map_id_inj (t1 t2 : trace) :
  trace_map (fun r => r) t1 = trace_map (fun r => r) t2 -> t1 = t2.
Proof.
  destruct t1 as [l1 o1], t2 as [l2 o2]. unfold trace_map. simpl.
  intros [= Hl ->]. f_equal. revert l2 Hl.
  induction l1 as [|e1 l1 IH]; intros [|e2 l2] Hl; simpl in *; try done.
  injection Hl as He Hl. f_equal; [|by apply IH].
  destruct e1, e2; simpl in *; congruence.
Qed.

(** ** Requesting a column by name *)

Lemma string2fcn_identifier ast_parse math_dict x :
  ast_parse x = Some [ast.AST ast.Expr [ast.Name x ast.Load]] ->
  is_reserved x = false ->
  string2fcn ast_parse math_dict x =
  Ok (PyFunction (closure (identifier_def x) math_dict)).
Proof.
  intros H Hx. unfold string2fcn. rewrite H. simpl.
  rewrite decide_False by set_solver. simpl.
  rewrite (right_id_L ∅ (∪)), sorted_singleton. unfold parse_def. simpl.
  rewrite Hx. simpl. unfold makefcn. simpl.
  by rewrite lookup_insert_eq.
Qed.

Lemma identifier_call math_dict x v :
  pycall (closure (identifier_def x) math_dict) [v] = Ok v.
Proof.
  unfold pycall. simpl. unfold load_in_function.
  rewrite decide_True by (unfold local_names; simpl; set_solver).
  by rewrite lookup_insert_eq.
Qed.

Lemma iterate_identifier ast_parse math_dict namedtuple s x c calcexecutor :
  ast_parse x = Some [ast.AST ast.Expr [ast.Name x ast.Load]] ->
  is_reserved x = false ->
  entryvar s <> Some x ->
  iterate ast_parse math_dict namedtuple (Source s) (Single (Text x))
          (Container c) calcexecutor =
  iterate_loop [identifier_cfcn s math_dict x] (finish c [Some x]) calcexecutor
    (ChainSource_iterate s [branchname_of s x] false) None [].
Proof.
  intros Hparse Hx Hentry. unfold iterate, iterate_setup, _tofcns, entry_of, _tofcn.
  rewrite (string2fcn_identifier _ _ _ Hparse Hx). simpl.
  unfold _compilefcns, satisfy_all. simpl. unfold ChainSource_satisfy.
  rewrite decide_False by done. simpl.
  unfold ChainSource_argfcn. rewrite decide_False by done.
  assert (Hi : index_of (branchname_of s x) [branchname_of s x] = Some 0%nat).
  { unfold index_of. simpl. by rewrite decide_True. }
  rewrite Hi. reflexivity.
Qed.

Lemma make_cfcn_call fcn argfcns args :
  call_object (make_cfcn fcn argfcns) args =
  if decide (length args = 1%nat)
  then vs ← mapM (fun argfcn => call_object argfcn args) argfcns; call_object fcn vs
  else Raise (TypeError "wrong number of arguments").
Proof. reflexivity. Qed.

Lemma identifier_cfcn_same_calls s1 s2 math_dict x1 x2 :
  keeps_contract (ChainSource_compilefcn s1) ->
  keeps_contract (ChainSource_compilefcn s2) ->
  same_calls (identifier_cfcn s1 math_dict x1) (identifier_cfcn s2 math_dict x2).
Proof.
  intros H1 H2 args. unfold identifier_cfcn.
  rewrite H1, H2, !make_cfcn_call.
  case_decide as Hlen; [|done].
  destruct args as [|a [|]]; try done. simpl.
  rewrite H1, H2, item_getter_call.
  destruct (getitem a 0) as [v|]; [|done]. simpl.
  rewrite H1, H2. simpl. by rewrite !identifier_call.
Qed.

Lemma finish_single_values c k1 k2 results :
  record_values (finish c [k1] results) = record_values (finish c [k2] results).
Proof. destruct c; try done. by destruct results. Qed.

Lemma finish_positional c dictnames1 dictnames2 results :
  c <> Cdict -> finish c dictnames1 results = finish c dictnames2 results.
Proof. by destruct c. Qed.

Lemma iterate_identifier_factory ast_parse math_dict namedtuple s x kind calcexecutor :
  ast_parse x = Some [ast.AST ast.Expr [ast.Name x ast.Load]] ->
  is_reserved x = false ->
  namedtuple "Arrays" [Some x] = Ok kind ->
  iterate ast_parse math_dict namedtuple (Source s) (Single (Text x))
          NamedtupleFactory calcexecutor =
  iterate ast_parse math_dict namedtuple (Source s) (Single (Text x))
          (Container kind) calcexecutor.
Proof.
  intros Hparse Hx Hnt. unfold iterate, iterate_setup, _tofcns, entry_of, _tofcn.
  rewrite (string2fcn_identifier _ _ _ Hparse Hx). simpl.
  unfold _isidentifier. rewrite Hparse. simpl. by rewrite Hnt.
Qed.

(** C7, as amended. With the requirement r aliased to the column c,
    neither being the entry-index name nor a name no parameter may
    have, requesting r yields chunk by chunk the same values as
    requesting c from the same source without aliases. Given a
    container class, the records are the same too unless the class is
    the mapping, whose key is the requested name. Given the
    named-tuple factory, which builds a type whose field is the
    requested name, the values are the same whenever the factory
    builds a type for each of the two names. *)
Theorem alias_gives_the_values_of_the_column
    (ast_parse : string -> option (list ast.node)) (math_dict : gmap string pyobject)
    (namedtuple : string -> list (option string) -> result container)
    (s : ChainSource) (r c : string) (calcexecutor : option executor) :
  aliases s !! r = Some c ->
  entryvar s <> Some r ->
  entryvar s <> Some c ->
  ast_parse r = Some [ast.AST ast.Expr [ast.Name r ast.Load]] ->
  ast_parse c = Some [ast.AST ast.Expr [ast.Name c ast.Load]] ->
  is_reserved r = false ->
  is_reserved c = false ->
  keeps_contract (ChainSource_compilefcn s) ->
  (forall kind,
     trace_values (iterate ast_parse math_dict namedtuple (Source s)
                           (Single (Text r)) (Container kind) calcexecutor) =
     trace_values (iterate ast_parse math_dict namedtuple (Source (with_aliases s ∅))
                           (Single (Text c)) (Container kind) calcexecutor) /\
     (kind <> Cdict ->
      iterate ast_parse math_dict namedtuple (Source s)
              (Single (Text r)) (Container kind) calcexecutor =
      iterate ast_parse math_dict namedtuple (Source (with_aliases s ∅))
              (Single (Text c)) (Container kind) calcexecutor)) /\
  (forall typename1 fields1 typename2 fields2,
     namedtuple "Arrays" [Some r] = Ok (Cnamed typename1 fields1) ->
     namedtuple "Arrays" [Some c] = Ok (Cnamed typename2 fields2) ->
     trace_values (iterate ast_parse math_dict namedtuple (Source s)
                           (Single (Text r)) NamedtupleFactory calcexecutor) =
     trace_values (iterate ast_parse math_dict namedtuple (Source (with_aliases s ∅))
                           (Single (Text c)) NamedtupleFactory calcexecutor)).
Proof.
  intros Halias Hr Hc Hpr Hpc Hrr Hrc Hcontract.
  assert (Hb1 : branchname_of s r = c) by (unfold branchname_of; by rewrite Halias).
  assert (Hb2 : branchname_of (with_aliases s ∅) c = c) by done.
  assert (Hcalls : Forall2 same_calls [identifier_cfcn s math_dict r]
                                      [identifier_cfcn (with_aliases s ∅) math_dict c]).
  { constructor; [|constructor]. by apply identifier_cfcn_same_calls. }
  split.
  - intros kind.
    rewrite (iterate_identifier _ _ _ s r) by done.
    rewrite (iterate_identifier _ _ _ (with_aliases s ∅) c) by done.
    rewrite Hb1, Hb2.
    change (ChainSource_iterate (with_aliases s ∅) [c] false)
      with (ChainSource_iterate s [c] false).
    split.
    + apply iterate_loop_ext; [done|]. intros results. apply finish_single_values.
    + intros Hkind. apply trace_map_id_inj.
      apply iterate_loop_ext; [done|]. intros results. by apply finish_positional.
  - intros typename1 fields1 typename2 fields2 Hnt1 Hnt2.
    rewrite (iterate_identifier_factory _ _ _ s r _ _ Hpr Hrr Hnt1).
    rewrite (iterate_identifier_factory _ _ _ (with_aliases s ∅) c _ _ Hpc Hrc Hnt2).
    rewrite (iterate_identifier _ _ _ s r) by done.
    rewrite (iterate_identifier _ _ _ (with_aliases s ∅) c) by done.
    rewrite Hb1, Hb2.
    change (ChainSource_iterate (with_aliases s ∅) [c] false)
      with (ChainSource_iterate s [c] false).
    apply iterate_loop_ext; [done|]. intros results. reflexivity.
Qed.

Lemma alias_gives_the_values_of_the_column_witness :
  (forall kind,
     trace_values (iterate sample.parse sample.math collections_namedtuple
                           (Source (sample.aliased sample.one_chunk))
                           (Single (Text "r")) (Container kind) None) =
     trace_values (iterate sample.parse sample.math collections_namedtuple
                           (Source (with_aliases (sample.aliased sample.one_chunk) ∅))
                           (Single (Text "c")) (Container kind) None) /\
     (kind <> Cdict ->
      iterate sample.parse sample.math collections_namedtuple
              (Source (sample.aliased sample.one_chunk))
              (Single (Text "r")) (Container kind) None =
      iterate sample.parse sample.math collections_namedtuple
              (Source (with_aliases (sample.aliased sample.one_chunk) ∅))
              (Single (Text "c")) (Container kind) None)) /\
  trace_values (iterate sample.parse sample.math collections_namedtuple
                        (Source (sample.aliased sample.one_chunk))
                        (Single (Text "r")) NamedtupleFactory None) =
  trace_values (iterate sample.parse sample.math collections_namedtuple
                        (Source (with_aliases (sample.aliased sample.one_chunk) ∅))
                        (Single (Text "c")) NamedtupleFactory None).
Proof.
  destruct (alias_gives_the_values_of_the_column sample.parse sample.math
              collections_namedtuple (sample.aliased sample.one_chunk) "r" "c" None)
    as [Hkinds Hfactory].
  - vm_compute. reflexivity.
  - discriminate.
  - discriminate.
  - vm_compute. reflexivity.
  - vm_compute. reflexivity.
  - vm_compute. reflexivity.
  - vm_compute. reflexivity.
  - intros o args. reflexivity.
  - split; [exact Hkinds|].
    apply (Hfactory "Arrays" [Some "r"] "Arrays" [Some "c"]); vm_compute; reflexivity.
Defined.

(** The two runs differ where the claim says they agree. With the
    mapping container the records are keyed by "r" in one run and by
    "c" in the other, and with the named-tuple factory their field is
    "r" in one and "c" in the other. When c is also the entry-index
    name, requesting r reads the raw column c and requesting c gives
    the entry numbers. When r is a name no parameter may have,
    requesting it fails and requesting c does not. *)
Lemma alias_run_differs_from_the_direct_run :
  iterate sample.parse sample.math collections_namedtuple
          (Source (sample.aliased sample.one_chunk))
          (Single (Text "r")) (Container Cdict) None <>
  iterate sample.parse sample.math collections_namedtuple
          (Source (with_aliases (sample.aliased sample.one_chunk) ∅))
          (Single (Text "c")) (Container Cdict) None /\
  iterate sample.parse sample.math collections_namedtuple
          (Source (sample.aliased sample.one_chunk))
          (Single (Text "r")) NamedtupleFactory None <>
  iterate sample.parse sample.math collections_namedtuple
          (Source (with_aliases (sample.aliased sample.one_chunk) ∅))
          (Single (Text "c")) NamedtupleFactory None /\
  trace_values (iterate sample.parse sample.math collections_namedtuple
                        (Source (aliased_to_the_index sample.one_chunk))
                        (Single (Text "r")) (Container Ctuple) None) <>
  trace_values (iterate sample.parse sample.math collections_namedtuple
                        (Source (with_aliases (aliased_to_the_index sample.one_chunk) ∅))
                        (Single (Text "c")) (Container Ctuple) None) /\
  trace_values (iterate parse_further sample.math collections_namedtuple
                        (Source (aliased_from_debug sample.one_chunk))
                        (Single (Text "__debug__")) (Container Ctuple) None) <>
  trace_values (iterate parse_further sample.math collections_namedtuple
                        (Source (with_aliases (aliased_from_debug sample.one_chunk) ∅))
                        (Single (Text "c")) (Container Ctuple) None).
Proof. repeat split; vm_compute; discriminate. Qed.

(** ** Named-tuple output *)

Lemma check_field_names_bad ast_parse dictnames :
  Exists (fun d => _isidentifier ast_parse d = false) dictnames ->
  exists msg, check_field_names ast_parse dictnames = Raise (ValueError msg).
Proof.
  induction dictnames as [|d rest IH]; intros H; [by apply Exists_nil in H|].
  simpl. destruct (_isidentifier ast_parse d) eqn:Hd; [|eauto].
  apply Exists_cons in H as [H|H]; [congruence | by apply IH].
Qed.

Lemma check_field_names_good ast_parse dictnames :
  Forall (fun d => _isidentifier ast_parse d = true) dictnames ->
  check_field_names ast_parse dictnames = Ok tt.
Proof. induction 1 as [|d rest Hd _ IH]; [done|]. simpl. by rewrite Hd. Qed.

(** C9, as amended. With the named-tuple factory as output type: if
    some display name does not pass [_isidentifier], the generator
    raises ValueError before anything is fetched or yielded. If all
    pass, the display names in the order of the outputs go to
    namedtuple("Arrays", ...): when that raises, the generator raises
    the same before anything is fetched or yielded, and when that
    builds a type, the run is the run with that type as container. *)
Theorem namedtuple_names_are_checked_first
    (ast_parse : string -> option (list ast.node)) (math_dict : gmap string pyobject)
    (namedtuple : string -> list (option string) -> result container)
    (self : step) (exprs : exprs_arg) (calcexecutor : option executor)
    (fcns : list fcn_entry) :
  _tofcns ast_parse math_dict self exprs = Ok fcns ->
  (Exists (fun d => _isidentifier ast_parse d = false) (dictname_of <$> fcns) ->
   exists msg,
     iterate ast_parse math_dict namedtuple self exprs NamedtupleFactory calcexecutor
     = ([], Some (ValueError msg))) /\
  (Forall (fun d => _isidentifier ast_parse d = true) (dictname_of <$> fcns) ->
   iterate ast_parse math_dict namedtuple self exprs NamedtupleFactory calcexecutor =
   match namedtuple "Arrays" (dictname_of <$> fcns) with
   | Raise e => ([], Some e)
   | Ok c => iterate ast_parse math_dict namedtuple self exprs (Container c) calcexecutor
   end).
Proof.
  intros Hfcns. split.
  - intros Hbad. destruct (check_field_names_bad _ _ Hbad) as [msg Hmsg].
    exists msg. unfold iterate, iterate_setup. rewrite Hfcns. simpl.
    by rewrite Hmsg.
  - intros Hgood. unfold iterate, iterate_setup. rewrite Hfcns. simpl.
    rewrite (check_field_names_good _ _ Hgood). simpl.
    by destruct (namedtuple "Arrays" (dictname_of <$> fcns)).
Qed.

Lemma namedtuple_names_are_checked_first_witness :
  (exists msg,
     iterate sample.parse sample.math collections_namedtuple
             (Source (sample.plain sample.one_chunk)) (Single (Text "x + 1"))
             NamedtupleFactory None
     = ([], Some (ValueError msg))) /\
  iterate sample.parse sample.math collections_namedtuple
          (Source (sample.plain sample.one_chunk)) (Single (Text "x"))
          NamedtupleFactory None =
  iterate sample.parse sample.math collections_namedtuple
          (Source (sample.plain sample.one_chunk)) (Single (Text "x"))
          (Container (Cnamed "Arrays" [Some "x"])) None.
Proof.
  split.
  - destruct (_tofcns sample.parse sample.math (Source (sample.plain sample.one_chunk))
                      (Single (Text "x + 1"))) as [fcns|e] eqn:Hfcns.
    + destruct (namedtuple_names_are_checked_first sample.parse sample.math
                  collections_namedtuple (Source (sample.plain sample.one_chunk))
                  (Single (Text "x + 1")) None fcns Hfcns) as [Hbad _].
      apply Hbad. vm_compute in Hfcns. injection Hfcns as <-.
      apply Exists_cons_hd. vm_compute. reflexivity.
    + vm_compute in Hfcns. discriminate.
  - destruct (_tofcns sample.parse sample.math (Source (sample.plain sample.one_chunk))
                      (Single (Text "x"))) as [fcns|e] eqn:Hfcns.
    + destruct (namedtuple_names_are_checked_first sample.parse sample.math
                  collections_namedtuple (Source (sample.plain sample.one_chunk))
                  (Single (Text "x")) None fcns Hfcns) as [_ Hgood].
      rewrite Hgood.
      * vm_compute in Hfcns. injection Hfcns as <-. reflexivity.
      * vm_compute in Hfcns. injection Hfcns as <-.
        apply Forall_cons. split; [vm_compute; reflexivity | apply Forall_nil_2].
    + vm_compute in Hfcns. discriminate.
Defined.

(** A display name that is a legal identifier and passes
    [_isidentifier], and for which no container type is built: the
    standard library's namedtuple refuses a field name that starts
    with an underscore, and one given twice. *)
Lemma namedtuple_refuses_legal_identifiers :
  _isidentifier parse_further (Some "_x") = true /\
  iterate parse_further sample.math collections_namedtuple
          (Source (sample.plain sample.one_chunk)) (Single (Text "_x"))
          NamedtupleFactory None
  = ([], Some (ValueError "Field names cannot start with an underscore: '_x'")) /\
  _isidentifier parse_further (Some "x") = true /\
  iterate parse_further sample.math collections_namedtuple
          (Source (sample.plain sample.one_chunk)) (Iterable [Text "x"; Text "x"])
          NamedtupleFactory None
  = ([], Some (ValueError "Encountered duplicate field name: 'x'")).
Proof. vm_compute. done. Qed.

Example namedtuple_rejects_expression_text :
  iterate sample.parse sample.math sample.namedtuple
          (Source (sample.plain sample.one_chunk)) (Single (Text "x + 1"))
          NamedtupleFactory None
  = ([], Some (ValueError "illegal field name for namedtuple: 'x + 1'")).
Proof. vm_compute. reflexivity. Qed.

Example namedtuple_of_a_name :
  iterate sample.parse sample.math sample.namedtuple
          (Source (sample.plain sample.three_chunks)) (Single (Text "x"))
          NamedtupleFactory None
  = ([Fetch [VArray [0; 1]]; Fetch [VArray [2; 3]];
      Yield (RNamed "Arrays" [Some "x"] [VArray [0; 1]]);
      Fetch [VArray [4; 5]];
      Yield (RNamed "Arrays" [Some "x"] [VArray [2; 3]]);
      Yield (RNamed "Arrays" [Some "x"] [VArray [4; 5]])],
     None).
Proof. vm_compute. reflexivity. Qed.

(** X15. The display names of a mapping of expressions are its keys, in
    the order of its items. *)
Lemma tofcns_Mapping_dictnames ast_parse math_dict self items fcns :
  forallb is_expression items.*2 = true ->
  _tofcns ast_parse math_dict self (Mapping items) = Ok fcns ->
  dictname_of <$> fcns = Some <$> items.*1.
Proof.
  intros Hall. simpl. rewrite Hall. clear Hall. revert fcns.
  induction items as [|[n x] rest IH]; intros fcns H; simpl in *.
  - by injection H as <-.
  - apply bind_inv_Ok in H as (e & He & H).
    apply bind_inv_Ok in H as (es & Hes & H). injection H as <-.
    simpl. f_equal; [|exact (IH _ Hes)].
    unfold entry_of in He. apply bind_inv_Ok in He as ([f reqs] & _ & He).
    by injection He as <-.
Qed.

(** ** The executor path *)

Lemma raise_deferred_cons excinfo rest :
  raise_deferred (excinfo :: rest) = Raise (NameError "_delayedraise").
Proof.
  simpl. replace (load_name iterate_locals "_delayedraise")
    with (@Raise pyobject (NameError "_delayedraise")); [done|].
  vm_compute. reflexivity.
Qed.

Lemma executor_map_length compiled arrays indices results :
  length (executor_map compiled arrays indices results).1 = length indices.
Proof.
  revert results. induction indices as [|i rest IH]; intros results; [done|].
  simpl. destruct (calculate compiled arrays i results) as [excinfo results'].
  specialize (IH results').
  destruct (executor_map compiled arrays rest results'). simpl in *. by rewrite IH.
Qed.

(** Once a chunk has gone through the executor, nothing more is
    yielded: at most one more chunk is fetched, and NameError ends
    the generator. *)
Lemma iterate_loop_pending compiled finish calcexecutor chunks excinfo excinfos results :
  iterate_loop compiled finish calcexecutor chunks (Some (excinfo :: excinfos)) results =
  (Fetch <$> take 1 chunks, Some (NameError "_delayedraise")).
Proof.
  destruct chunks as [|arrays rest]; cbn [iterate_loop]; unfold flush;
    by rewrite raise_deferred_cons.
Qed.

Lemma iterate_loop_executor compiled finish ex arrays rest results :
  compiled <> [] ->
  iterate_loop compiled finish (Some ex) (arrays :: rest) None results =
  (Fetch <$> arrays :: take 1 rest, Some (NameError "_delayedraise")).
Proof.
  intros Hne. cbn [iterate_loop flush]. unfold calculate_chunk.
  pose proof (executor_map_length compiled (VTuple arrays) (seq 0 (length compiled))
                (replicate (length compiled) VNone)) as Hlen.
  destruct (executor_map _ _ _ _) as [[|excinfo excinfos] results'].
  - simpl in Hlen. rewrite length_seq in Hlen. by destruct compiled.
  - by rewrite iterate_loop_pending.
Qed.

(** ** Resolving and compiling at the source *)

Lemma mapM_Ok {A B} (f : A -> result B) (l : list A) :
  (forall x, x ∈ l -> exists y, f x = Ok y) ->
  exists ys, mapM f l = Ok ys /\ length ys = length l.
Proof.
  induction l as [|x l IH]; intros H; [by exists []|].
  destruct (H x) as [y Hy]; [set_solver|].
  destruct IH as (ys & Hys & Hlen); [intros z Hz; apply H; set_solver|].
  exists (y :: ys). simpl. rewrite Hy. simpl. rewrite Hys. simpl.
  by rewrite Hlen.
Qed.

Lemma satisfy_requirements_grows s requirements acc x :
  x ∈ acc.1 ->
  x ∈ (foldl (fun acc requirement => ChainSource_satisfy s requirement acc)
             acc requirements).1.
Proof.
  revert acc. induction requirements as [|r rest IH]; intros acc Hx; [done|].
  simpl. apply IH. destruct (ChainSource_satisfy_grows s r acc) as [k ->].
  set_solver.
Qed.

Lemma satisfy_requirements_covers s requirements acc r :
  r ∈ requirements ->
  entryvar s <> Some r ->
  branchname_of s r ∈
    (foldl (fun acc requirement => ChainSource_satisfy s requirement acc)
           acc requirements).1.
Proof.
  revert acc. induction requirements as [|r' rest IH]; intros acc Hr He.
  - by apply elem_of_nil in Hr.
  - simpl. apply elem_of_cons in Hr as [->|Hr].
    + apply satisfy_requirements_grows. by apply ChainSource_satisfy_adds.
    + by apply IH.
Qed.

Lemma satisfy_all_covers s (fcns : list fcn_entry) fcn requirements cacheid dictname r :
  (fcn, requirements, cacheid, dictname) ∈ fcns ->
  r ∈ requirements ->
  entryvar s <> Some r ->
  branchname_of s r ∈ (satisfy_all (Source s) fcns).1.
Proof.
  unfold satisfy_all. generalize (([], false) : accumulator).
  induction fcns as [|[[[f rs] ci] dn] rest IH]; intros acc Hin Hr He.
  - by apply elem_of_nil in Hin.
  - simpl. apply elem_of_cons in Hin as [Heq|Hin].
    + injection Heq as <- <- <- <-.
      assert (Hgrow : forall (l : list fcn_entry) (a : accumulator) x, x ∈ a.1 ->
        x ∈ (foldl (fun acc '(fcn, requirements, cacheid, dictname) =>
               foldl (fun acc requirement => ChainSource_satisfy s requirement acc)
                     acc requirements) a l).1).
      { induction l as [|[[[f' rs'] ci'] dn'] l IHl]; intros a x Hx; [done|].
        simpl. apply IHl. by apply satisfy_requirements_grows. }
      apply Hgrow. by apply satisfy_requirements_covers.
    + by apply IH.
Qed.

(** At a source, everything [_compilefcns] resolved it can fetch: the
    compilation of the outputs always succeeds, one evaluator per
    output. *)
Lemma compilefcns_Source s (fcns : list fcn_entry) :
  exists compiled,
    _compilefcns (Source s) fcns =
      Ok (compiled, (satisfy_all (Source s) fcns).1, (satisfy_all (Source s) fcns).2) /\
    length compiled = length fcns.
Proof.
  unfold _compilefcns.
  pose proof (satisfy_all_covers s fcns) as Hcover.
  destruct (satisfy_all (Source s) fcns) as [branchnames entryvars]. simpl in *.
  match goal with
  | |- context [mapM ?f fcns] =>
      destruct (mapM_Ok f fcns) as (compiled & Hc & Hlen)
  end.
  - intros [[[f rs] ci] dn] Hin. simpl.
    match goal with
    | |- context [mapM ?g rs] => destruct (mapM_Ok g rs) as (argfcns & Ha & _)
    end.
    + intros r Hr.
      destruct (ChainSource_argfcn_after_satisfy s r branchnames) as (i & Hi & _);
        [by eapply Hcover | eauto].
    + rewrite Ha. simpl. eauto.
  - exists compiled. by rewrite Hc.
Qed.

Lemma mapM_never_Ok {A B} (f : A -> result B) (l : list A) ys :
  (forall x y, f x <> Ok y) -> mapM f l = Ok ys -> ys = [].
Proof.
  intros Hf H. destruct l as [|x l]; simpl in H; [by injection H as <-|].
  apply bind_inv_Ok in H as (y & Hy & _). by apply Hf in Hy.
Qed.

Lemma entry_of_needs_compilefcn ast_parse math_dict self x dictname e :
  entry_of ast_parse math_dict self x dictname = Ok e ->
  exists compilefcn, getattr_compilefcn self = Ok compilefcn.
Proof.
  unfold entry_of, _tofcn. intros H.
  apply bind_inv_Ok in H as ([f reqs] & H & _).
  apply bind_inv_Ok in H as (expr' & _ & H).
  apply bind_inv_Ok in H as (compilefcn & H & _). eauto.
Qed.

(** A step that is not a source compiles no expression. *)
Lemma tofcns_nonempty_Source ast_parse math_dict self exprs fcns :
  _tofcns ast_parse math_dict self exprs = Ok fcns ->
  fcns <> [] ->
  exists s, self = Source s.
Proof.
  intros H Hne.
  assert (Hattr : exists compilefcn, getattr_compilefcn self = Ok compilefcn).
  { destruct (getattr_compilefcn self) as [compilefcn|err] eqn:Hget; [eauto|].
    exfalso. apply Hne.
    assert (Hentry : forall x dn e, entry_of ast_parse math_dict self x dn <> Ok e).
    { intros x dn e He. apply entry_of_needs_compilefcn in He as [? He]. congruence. }
    destruct exprs as [[text|f|]|items|xs]; simpl in H.
    - apply bind_inv_Ok in H as (e & He & _). by apply Hentry in He.
    - apply bind_inv_Ok in H as (e & He & _). by apply Hentry in He.
    - done.
    - destruct (forallb _ _); (eapply mapM_never_Ok; [|exact H]);
        intros [n x] y; apply Hentry.
    - destruct (forallb _ _); [|done].
      eapply mapM_never_Ok; [|exact H]. intros x y. apply Hentry. }
  destruct Hattr as [compilefcn Hattr]. destruct self; [eauto|done..].
Qed.

(** C10. An iterate call with an executor, at least one output and a
    source that has a chunk ends in NameError without yielding a
    record: the loop that should re-raise the captured exceptions
    calls [_delayedraise], a name the module does not bind, on the
    first entry of the executor's result, and there is one entry per
    output whether its evaluation failed or not. *)
Theorem executor_path_raises_NameError
    (ast_parse : string -> option (list ast.node)) (math_dict : gmap string pyobject)
    (namedtuple : string -> list (option string) -> result container)
    (self : step) (exprs : exprs_arg) (ot : outputtype) (ex : executor)
    (fcns : list fcn_entry) (c : container) :
  _tofcns ast_parse math_dict self exprs = Ok fcns ->
  fcns <> [] ->
  resolve_outputtype ast_parse namedtuple ot (dictname_of <$> fcns) = Ok c ->
  (forall branchnames, tree (source self) branchnames <> []) ->
  (iterate ast_parse math_dict namedtuple self exprs ot (Some ex)).2
    = Some (NameError "_delayedraise") /\
  yields (iterate ast_parse math_dict namedtuple self exprs ot (Some ex)) = [].
Proof.
  intros Hfcns Hne Hres Htree.
  destruct (tofcns_nonempty_Source _ _ _ _ _ Hfcns Hne) as [s ->].
  unfold iterate, iterate_setup. rewrite Hfcns. simpl. rewrite Hres. simpl.
  destruct (compilefcns_Source s fcns) as (compiled & -> & Hlen). simpl.
  unfold ChainSource_iterate. specialize (Htree (satisfy_all (Source s) fcns).1).
  simpl in Htree. destruct (tree s _) as [|[[a b] arrays] rest]; [done|].
  rewrite fmap_cons, iterate_loop_executor
    by (intros ->; destruct fcns; simpl in Hlen; done).
  split; [done|]. unfold yields. simpl.
  by destruct (_ <$> rest).
Qed.

Lemma executor_path_raises_NameError_witness :
  (iterate sample.parse sample.math sample.namedtuple
           (Source (sample.plain sample.three_chunks)) (Single (Text "x * 2"))
           (Container Cdict) (Some MapExecutor)).2
    = Some (NameError "_delayedraise") /\
  yields (iterate sample.parse sample.math sample.namedtuple
            (Source (sample.plain sample.three_chunks)) (Single (Text "x * 2"))
            (Container Cdict) (Some MapExecutor)) = [].
Proof.
  destruct (_tofcns sample.parse sample.math (Source (sample.plain sample.three_chunks))
                    (Single (Text "x * 2"))) as [fcns|e] eqn:Hfcns.
  - apply (executor_path_raises_NameError sample.parse sample.math sample.namedtuple
             (Source (sample.plain sample.three_chunks)) (Single (Text "x * 2"))
             (Container Cdict) MapExecutor fcns Cdict Hfcns).
    + vm_compute in Hfcns. injection Hfcns as <-. discriminate.
    + reflexivity.
    + intros branchnames. discriminate.
  - vm_compute in Hfcns. discriminate.
Defined.

(** ** Evaluation errors *)

(** X7. Without an executor: while the chunks compute, each one's record
    is yielded; the first chunk with a failing output ends the run with
    that output's exception, in place of its record, and no chunk after
    it is fetched. *)
Lemma sequential_run_until_failure compiled finish good rs bad e rest :
  Forall2 (fun arrays r =>
             calculate_chunk compiled None (VTuple arrays) = Ok ([], r)) good rs ->
  calculate_chunk compiled None (VTuple bad) = Raise e ->
  forall excinfos results,
    excinfos = None \/ excinfos = Some [] ->
    let t := iterate_loop compiled finish None (good ++ bad :: rest) excinfos results in
    fetches t = good ++ [bad] /\
    yields t = match excinfos with
               | None => []
               | Some _ => [finish results]
               end ++ (finish <$> rs) /\
    t.2 = Some e.
Proof.
  intros Hgood Hbad. induction Hgood as [|arrays r good rs Hr _ IH];
    intros excinfos results Hex; cbn [iterate_loop app].
  - rewrite Hbad. by destruct Hex as [-> | ->].
  - rewrite Hr. destruct (IH (Some []) r) as (Hf & Hy & Ho); [by right|].
    revert Hf Hy Ho.
    generalize (iterate_loop compiled finish None (good ++ bad :: rest) (Some []) r).
    intros [events outcome] Hf Hy Ho. unfold fetches, yields in *. simpl in *.
    destruct Hex as [-> | ->]; simpl.
    + split; [f_equal; exact Hf|]. split; [exact Hy | exact Ho].
    + split; [f_equal; exact Hf|]. split; [f_equal; exact Hy | exact Ho].
Qed.

(** The run of the specification: three chunks, an output that fails
    on the second. Without an executor the first record is yielded,
    then the exception is raised, and the third chunk is not fetched. *)
Example second_chunk_fails_sequentially :
  iterate sample.parse sample.math sample.namedtuple
          (Source (sample.plain sample.three_chunks))
          (Single (Callable sample.fails_from_two)) (Container Cdict) None
  = ([Fetch [VArray [0; 1]]; Fetch [VArray [2; 3]];
      Yield (RDict [(Some "fails_from_two", VArray [0; 1])])],
     Some (UserException 7)).
Proof. vm_compute. reflexivity. Qed.

(** C2 fails on the code. The same run with an executor: the first
    record is not yielded and the exception of the evaluator is never
    raised; the generator ends in NameError. *)
Lemma second_chunk_fails_with_executor :
  iterate sample.parse sample.math sample.namedtuple
          (Source (sample.plain sample.three_chunks))
          (Single (Callable sample.fails_from_two)) (Container Cdict)
          (Some MapExecutor)
  = ([Fetch [VArray [0; 1]]; Fetch [VArray [2; 3]]],
     Some (NameError "_delayedraise")).
Proof. vm_compute. reflexivity. Qed.

(** * Further properties of the code *)

(** ** Resolution through a chain *)

Lemma ChainSource_satisfy_elem s r acc x :
  x ∈ (ChainSource_satisfy s r acc).1 <->
  x ∈ acc.1 \/ (entryvar s <> Some r /\ x = branchname_of s r).
Proof.
  unfold ChainSource_satisfy. case_decide as He; simpl; [naive_solver|].
  destruct (index_of _ _) as [i|] eqn:Hi; simpl.
  - apply index_of_Some in Hi. apply list_elem_of_lookup_2 in Hi. naive_solver.
  - rewrite elem_of_app, list_elem_of_singleton. naive_solver.
Qed.

Lemma ChainSource_satisfy_flag s r acc :
  (ChainSource_satisfy s r acc).2 = true <-> acc.2 = true \/ entryvar s = Some r.
Proof.
  unfold ChainSource_satisfy. case_decide as He; simpl; [naive_solver|].
  destruct (index_of _ _); simpl; naive_solver.
Qed.

Lemma ChainSource_satisfy_NoDup s r acc :
  NoDup acc.1 -> NoDup (ChainSource_satisfy s r acc).1.
Proof.
  intros Hnd. unfold ChainSource_satisfy. case_decide; [done|].
  destruct (index_of _ _) eqn:Hi; [done|]. simpl.
  apply index_of_None in Hi. apply NoDup_app. split; [done|].
  split; [|apply NoDup_singleton]. intros x Hx Hx'.
  apply list_elem_of_singleton in Hx' as ->. done.
Qed.

Lemma ChainSource_satisfy_covered s r acc :
  (entryvar s = Some r -> acc.2 = true) ->
  (entryvar s <> Some r -> branchname_of s r ∈ acc.1) ->
  ChainSource_satisfy s r acc = acc.
Proof.
  intros Hflag Hcol. unfold ChainSource_satisfy. case_decide as He.
  - destruct acc as [l b]. simpl in *. by rewrite Hflag.
  - destruct (index_of _ _) eqn:Hi; [done|]. apply index_of_None in Hi.
    by destruct Hi; apply Hcol.
Qed.

Lemma satisfy_each_prefix s names acc : acc.1 `prefix_of` (satisfy_each s acc names).1.
Proof.
  revert acc. induction names as [|r rest IH]; intros acc; [done|].
  simpl. etrans; [apply ChainSource_satisfy_grows | apply IH].
Qed.

Lemma satisfy_each_NoDup s names acc :
  NoDup acc.1 -> NoDup (satisfy_each s acc names).1.
Proof.
  revert acc. induction names as [|r rest IH]; intros acc Hnd; [done|].
  simpl. apply IH. by apply ChainSource_satisfy_NoDup.
Qed.

Lemma satisfy_each_elem s names acc x :
  x ∈ (satisfy_each s acc names).1 <->
  x ∈ acc.1 \/
  exists r, r ∈ names /\ entryvar s <> Some r /\ x = branchname_of s r.
Proof.
  revert acc. induction names as [|r rest IH]; intros acc; simpl.
  - split; [by left|]. intros [?|(r & Hr & _)]; [done|]. by apply elem_of_nil in Hr.
  - rewrite IH, ChainSource_satisfy_elem. split.
    + intros [[?|[? ->]]|(r' & ? & ? & ->)]; [by left| |].
      * right. exists r. split; [left|]; done.
      * right. exists r'. split; [by right|]. done.
    + intros [?|(r' & Hr' & ? & ->)]; [by left; left|].
      apply elem_of_cons in Hr' as [->|?]; [left; right; done|].
      right. by exists r'.
Qed.

Lemma satisfy_each_flag s names acc :
  (satisfy_each s acc names).2 = true <->
  acc.2 = true \/ exists r, r ∈ names /\ entryvar s = Some r.
Proof.
  revert acc. induction names as [|r rest IH]; intros acc; simpl.
  - split; [by left|]. intros [?|(r & Hr & _)]; [done|]. by apply elem_of_nil in Hr.
  - rewrite IH, ChainSource_satisfy_flag. split.
    + intros [[?|?]|(r' & ? & ?)]; [by left| |].
      * right. exists r. split; [left|]; done.
      * right. exists r'. split; [by right|]. done.
    + intros [?|(r' & Hr' & ?)]; [by left; left|].
      apply elem_of_cons in Hr' as [->|?]; [left; right; done|].
      right. by exists r'.
Qed.

Lemma satisfy_each_app s acc l1 l2 :
  satisfy_each s acc (l1 ++ l2) = satisfy_each s (satisfy_each s acc l1) l2.
Proof. apply foldl_app. Qed.

Lemma satisfy_each_covered s names acc :
  (forall r, r ∈ names ->
     (entryvar s = Some r -> acc.2 = true) /\
     (entryvar s <> Some r -> branchname_of s r ∈ acc.1)) ->
  satisfy_each s acc names = acc.
Proof.
  induction names as [|r rest IH]; intros H; [done|]. simpl.
  destruct (H r) as [Hf Hc]; [by left|].
  rewrite ChainSource_satisfy_covered by done.
  apply IH. intros r' Hr'. apply H. by right.
Qed.

(** Resolving through a chain is resolving, at its source, the raw
    names the requirement expands to. *)
Lemma satisfy_as_fold self : forall requirement acc,
  _satisfy self requirement acc =
  satisfy_each (source self) acc (expand self requirement).
Proof.
  induction self as [s|previous IH|previous IH fcn requirements];
    intros requirement acc; simpl; [done|apply IH|].
  destruct (requirements !! requirement) as [reqs|]; [|apply IH].
  revert acc. induction reqs as [|r rest IHr]; intros acc; [done|].
  simpl. rewrite satisfy_each_app, <- IH. apply IHr.
Qed.

(** X1. Resolving a requirement through any chain adds to the column
    list exactly the branches (through the alias table) of the raw
    names it expands to, the entry-index name apart, and sets the flag
    exactly when one of them is the entry-index name. *)
Theorem satisfy_collects_exactly (self : step) (requirement : string)
    (acc : accumulator) (x : string) :
  (x ∈ (_satisfy self requirement acc).1 <->
   x ∈ acc.1 \/
   exists r, r ∈ expand self requirement /\
             entryvar (source self) <> Some r /\
             x = branchname_of (source self) r) /\
  ((_satisfy self requirement acc).2 = true <->
   acc.2 = true \/
   exists r, r ∈ expand self requirement /\ entryvar (source self) = Some r).
Proof.
  rewrite satisfy_as_fold. split; [apply satisfy_each_elem | apply satisfy_each_flag].
Qed.

(** X2. Resolving only appends to the column list, so positions found
    earlier stay valid, and it never lists a branch twice. *)
Theorem satisfy_appends_without_duplicates (self : step) (requirement : string)
    (acc : accumulator) :
  acc.1 `prefix_of` (_satisfy self requirement acc).1 /\
  (NoDup acc.1 -> NoDup (_satisfy self requirement acc).1).
Proof.
  rewrite satisfy_as_fold. split; [apply satisfy_each_prefix | apply satisfy_each_NoDup].
Qed.

(** X3. Resolving the same requirement a second time changes nothing. *)
Theorem satisfy_is_idempotent (self : step) (requirement : string) (acc : accumulator) :
  _satisfy self requirement (_satisfy self requirement acc) =
  _satisfy self requirement acc.
Proof.
  rewrite !satisfy_as_fold. apply satisfy_each_covered. intros r Hr. split.
  - intros He. apply satisfy_each_flag. right. eauto.
  - intros He. apply satisfy_each_elem. right. eauto.
Qed.

(** ** Fetchers through a chain *)

Lemma expand_undefined self requirement :
  defined_on_chain self requirement = false -> expand self requirement = [requirement].
Proof.
  induction self as [s|previous IH|previous IH fcn requirements]; simpl; [done|done|].
  by destruct (requirements !! requirement).
Qed.

Lemma satisfy_later_prefix self later acc :
  acc.1 `prefix_of` (foldl (fun a q => _satisfy self q a) acc later).1.
Proof.
  revert acc. induction later as [|q rest IH]; intros acc; [done|].
  simpl. etrans; [|apply IH]. rewrite satisfy_as_fold. apply satisfy_each_prefix.
Qed.

(** X4. The fetcher a chain gives for a requirement: if the first step
    that knows the name is a Define step, none (NameError on fcn);
    otherwise the fetcher of the source, whatever steps lie between. *)
Theorem argfcn_through_the_chain (self : step) (requirement : string)
    (branchnames : list string) :
  _argfcn self requirement branchnames =
  if defined_on_chain self requirement then Raise (NameError "fcn")
  else ChainSource_argfcn (source self) requirement branchnames.
Proof.
  induction self as [s|previous IH|previous IH fcn requirements]; simpl; [done|done|].
  by destruct (requirements !! requirement).
Qed.

Lemma argfcn_undefined self requirement branchnames :
  defined_on_chain self requirement = false ->
  _argfcn self requirement branchnames =
  ChainSource_argfcn (source self) requirement branchnames.
Proof.
  induction self as [s|previous IH|previous IH fcn requirements]; simpl; [done|done|].
  by destruct (requirements !! requirement).
Qed.

(** X5. A name no Define step defines, once resolved, can be fetched
    whatever is resolved after it, and on a chunk that holds one array
    per listed branch its fetcher returns the array of the branch the
    alias table gives for the name. *)
Theorem fetcher_returns_the_resolved_column (self : step) (requirement : string)
    (acc : accumulator) (later : list string) (col : string -> value) :
  defined_on_chain self requirement = false ->
  entryvar (source self) <> Some requirement ->
  keeps_contract (ChainSource_compilefcn (source self)) ->
  exists f,
    _argfcn self requirement
      (foldl (fun a q => _satisfy self q a) (_satisfy self requirement acc) later).1
    = Ok f /\
    call_object f
      [VTuple (col <$> (foldl (fun a q => _satisfy self q a)
                              (_satisfy self requirement acc) later).1)]
    = Ok (col (branchname_of (source self) requirement)).
Proof.
  intros Hundef Hentry Hcontract.
  pose proof (satisfy_later_prefix self later (_satisfy self requirement acc)) as Hpre.
  set (branchnames := (foldl (fun a q => _satisfy self q a)
                             (_satisfy self requirement acc) later).1) in *.
  assert (Hin : branchname_of (source self) requirement ∈ branchnames).
  { destruct Hpre as [k ->]. apply elem_of_app. left.
    rewrite satisfy_as_fold, (expand_undefined _ _ Hundef). simpl.
    by apply ChainSource_satisfy_adds. }
  rewrite argfcn_undefined by done.
  destruct (ChainSource_argfcn_after_satisfy (source self) requirement branchnames)
    as (index & -> & _ & Hindex); [done|].
  eexists. split; [done|].
  rewrite Hcontract, item_getter_call. simpl.
  by rewrite list_lookup_fmap, (Hindex Hentry).
Qed.

Lemma fetcher_returns_the_resolved_column_witness :
  exists f,
    _argfcn (Step (Source (sample.aliased sample.one_chunk))) "r"
      (foldl (fun a q => _satisfy (Step (Source (sample.aliased sample.one_chunk))) q a)
             (_satisfy (Step (Source (sample.aliased sample.one_chunk))) "r"
                       (["x"], false))
             ["y"]).1
    = Ok f /\
    call_object f
      [VTuple ((fun b => sample.column b 0 2) <$>
               (foldl (fun a q => _satisfy (Step (Source (sample.aliased sample.one_chunk))) q a)
                      (_satisfy (Step (Source (sample.aliased sample.one_chunk))) "r"
                                (["x"], false))
                      ["y"]).1)]
    = Ok (sample.column (branchname_of (source (Step (Source (sample.aliased sample.one_chunk)))) "r") 0 2).
Proof.
  apply (fetcher_returns_the_resolved_column
           (Step (Source (sample.aliased sample.one_chunk))) "r" (["x"], false) ["y"]
           (fun b => sample.column b 0 2)).
  - reflexivity.
  - discriminate.
  - intros o args. reflexivity.
Defined.

(** ** What the compiled evaluators compute *)

Lemma mapM_Ok_inv {A B} (f : A -> result B) (l : list A) (ys : list B) :
  mapM f l = Ok ys -> Forall2 (fun x y => f x = Ok y) l ys.
Proof.
  revert ys. induction l as [|x l IH]; intros ys H; simpl in H.
  - injection H as <-. constructor.
  - apply bind_inv_Ok in H as (y & Hy & H).
    apply bind_inv_Ok in H as (k & Hk & H). injection H as <-.
    constructor; [done | by apply IH].
Qed.

Lemma mapM_Ok_intro {A B} (f : A -> result B) (l : list A) (ys : list B) :
  Forall2 (fun x y => f x = Ok y) l ys -> mapM f l = Ok ys.
Proof.
  induction 1 as [|x y l ys Hxy _ IH]; [done|]. simpl. rewrite Hxy. simpl.
  by rewrite IH.
Qed.

Lemma Forall2_impl_elem {A B} (P Q : A -> B -> Prop) (l : list A) (k : list B) :
  Forall2 P l k -> (forall x y, x ∈ l -> P x y -> Q x y) -> Forall2 Q l k.
Proof.
  induction 1 as [|x y l k Hxy _ IH]; intros H; constructor.
  - apply H; [by left | done].
  - apply IH. intros x' y' Hin. apply H. by right.
Qed.

Lemma ChainSource_argfcn_Ok_inv s requirement branchnames f :
  ChainSource_argfcn s requirement branchnames = Ok f ->
  exists index,
    f = ChainSource_compilefcn s (item_getter index) /\
    (entryvar s = Some requirement -> index = length branchnames) /\
    (entryvar s <> Some requirement ->
     branchnames !! index = Some (branchname_of s requirement)).
Proof.
  unfold ChainSource_argfcn. case_decide as He; simpl.
  - intros [= <-]. eexists. split; [done|]. split; done.
  - destruct (index_of _ _) as [i|] eqn:Hi; simpl; [|done].
    intros [= <-]. exists i. split; [done|]. split; [done|].
    intros _. by apply index_of_Some.
Qed.

Lemma satisfy_all_as_fold s (fcns : list fcn_entry) :
  satisfy_all (Source s) fcns =
  satisfy_each s ([], false) (fcns ≫= fun e => e.1.1.2).
Proof.
  unfold satisfy_all. generalize (([], false) : accumulator).
  induction fcns as [|[[[f rs] ci] dn] rest IH]; intros acc; [done|].
  simpl. rewrite satisfy_each_app. apply IH.
Qed.

Lemma compilefcns_calls
    (s : ChainSource) (fcns : list fcn_entry) (compiled : list pyobject)
    (branchnames : list string) (entryvars : bool)
    (col : string -> value) (start stop : Z) :
  keeps_contract (ChainSource_compilefcn s) ->
  _compilefcns (Source s) fcns = Ok (compiled, branchnames, entryvars) ->
  Forall2 (fun cfcn (e : fcn_entry) =>
             call_object cfcn
               [VTuple ((col <$> branchnames) ++
                        (if entryvars then [arange start stop] else []))] =
             call_object e.1.1.1 (requirement_value s col start stop <$> e.1.1.2))
          compiled fcns.
Proof.
  intros Hcontract. unfold _compilefcns.
  pose proof (satisfy_all_as_fold s fcns) as Hfold.
  destruct (satisfy_all (Source s) fcns) as [bn ev] eqn:Hall. intros H.
  apply bind_inv_Ok in H as (compiled' & Hmap & H). injection H as <- <- <-.
  apply mapM_Ok_inv in Hmap. apply Forall2_flip.
  eapply Forall2_impl_elem; [exact Hmap|]. clear Hmap.
  intros [[[fcn reqs] ci] dn] cfcn Hin Hc. simpl.
  apply bind_inv_Ok in Hc as (argfcns & Hargs & Hc). simpl in Hc.
  injection Hc as <-. rewrite Hcontract, make_cfcn_call. simpl.
  apply mapM_Ok_inv in Hargs.
  erewrite (mapM_Ok_intro _ argfcns (requirement_value s col start stop <$> reqs)); [done|].
  rewrite Forall2_fmap_r. apply Forall2_flip.
  eapply Forall2_impl_elem; [exact Hargs|]. clear Hargs.
  intros r argfcn Hrin Hr. simpl in Hr.
  apply ChainSource_argfcn_Ok_inv in Hr as (index & -> & Hev & Hcol).
  rewrite Hcontract, item_getter_call. simpl. unfold requirement_value.
  case_decide as He.
  - rewrite (Hev He).
    assert (Hflag : ev = true).
    { change ev with (bn, ev).2. rewrite Hfold. apply satisfy_each_flag. right.
      exists r. split; [|done]. apply list_elem_of_bind.
      exists (fcn, reqs, ci, dn). done. }
    rewrite Hflag.
    replace (length bn) with (length (col <$> bn)) by apply length_fmap.
    by rewrite list_lookup_middle.
  - rewrite lookup_app_l.
    + by rewrite list_lookup_fmap, (Hcol He).
    + rewrite length_fmap. eapply lookup_lt_Some. by apply Hcol.
Qed.

(** X6. At a source, there is one compiled evaluator per output, and
    the evaluator of an output, applied to a chunk that holds one array
    per resolved branch (and the entry numbers after them when the
    entry-index name was requested), calls the output's function on the
    values of its requirements: for each, the array of its branch
    through the alias table, or the entry numbers for the entry-index
    name. *)
Theorem compiled_evaluator_applies_the_function
    (s : ChainSource) (fcns : list fcn_entry) (compiled : list pyobject)
    (branchnames : list string) (entryvars : bool)
    (col : string -> value) (start stop : Z) :
  keeps_contract (ChainSource_compilefcn s) ->
  _compilefcns (Source s) fcns = Ok (compiled, branchnames, entryvars) ->
  length compiled = length fcns /\
  forall i cfcn fcn requirements cacheid dictname,
    compiled !! i = Some cfcn ->
    fcns !! i = Some (fcn, requirements, cacheid, dictname) ->
    call_object cfcn
      [VTuple ((col <$> branchnames) ++
               (if entryvars then [arange start stop] else []))] =
    call_object fcn (requirement_value s col start stop <$> requirements).
Proof.
  intros Hcontract H.
  pose proof (compilefcns_calls s fcns compiled branchnames entryvars col start stop
                Hcontract H) as Hall.
  split; [by eapply Forall2_length|].
  intros i cfcn fcn requirements cacheid dictname Hc He.
  exact (Forall2_lookup_lr _ _ _ _ _ _ Hall Hc He).
Qed.

Lemma compiled_evaluator_applies_the_function_witness :
  match _compilefcns (Source (sample.indexed sample.one_chunk))
          [(PyFunction sample.with_local, ["x"; "entry"], CacheId 2, Some "with_local")] with
  | Ok (compiled, branchnames, entryvars) =>
      length compiled =
      length [(PyFunction sample.with_local, ["x"; "entry"], CacheId 2,
               Some "with_local")] /\
      forall i cfcn fcn requirements cacheid dictname,
        compiled !! i = Some cfcn ->
        [(PyFunction sample.with_local, ["x"; "entry"], CacheId 2, Some "with_local")] !! i
          = Some (fcn, requirements, cacheid, dictname) ->
        call_object cfcn
          [VTuple (((fun b => sample.column b 0 2) <$> branchnames) ++
                   (if entryvars then [arange 0 2] else []))] =
        call_object fcn
          (requirement_value (sample.indexed sample.one_chunk)
             (fun b => sample.column b 0 2) 0 2 <$> requirements)
  | Raise _ => False
  end.
Proof.
  destruct (_compilefcns (Source (sample.indexed sample.one_chunk))
              [(PyFunction sample.with_local, ["x"; "entry"], CacheId 2, Some "with_local")])
    as [[[compiled branchnames] entryvars]|e] eqn:H.
  - apply (compiled_evaluator_applies_the_function (sample.indexed sample.one_chunk)
             [(PyFunction sample.with_local, ["x"; "entry"], CacheId 2, Some "with_local")]
             compiled branchnames entryvars (fun b => sample.column b 0 2) 0 2).
    + intros o args. reflexivity.
    + exact H.
  - vm_compute in H. discriminate.
Defined.

(** ** Runs without an executor *)

Lemma sequential_run_until_failure_witness :
  let t := iterate_loop [fails_on_entry_two] RTuple None
             ([[VArray [0; 1]]] ++ [VArray [2; 3]] :: [[VArray [4; 5]]]) None [] in
  fetches t = [[VArray [0; 1]]] ++ [[VArray [2; 3]]] /\
  yields t = [] ++ (RTuple <$> [[VArray [0; 1]]]) /\
  t.2 = Some (UserException 7).
Proof.
  apply (sequential_run_until_failure [fails_on_entry_two] RTuple
           [[VArray [0; 1]]] [[VArray [0; 1]]] [VArray [2; 3]] (UserException 7)
           [[VArray [4; 5]]]).
  - constructor; [vm_compute; reflexivity | constructor].
  - vm_compute. reflexivity.
  - by left.
Defined.


(** ** The results of one chunk *)

Lemma calculate_in_turn_Ok compiled arrays : forall m k R R',
  length R = length compiled ->
  (k + m)%nat = length compiled ->
  calculate_in_turn compiled arrays (seq k m) R = Ok R' ->
  length R' = length R /\ take k R' = take k R /\
  Forall2 (fun cfcn r => call_object cfcn [arrays] = Ok r) (drop k compiled) (drop k R').
Proof.
  induction m as [|m IH]; intros k R R' HlenR Hkm H; simpl in H.
  - injection H as <-. split; [done|]. split; [done|].
    rewrite !drop_ge by lia. constructor.
  - unfold calculate in H.
    destruct (compiled !! k) as [cfcn|] eqn:Hk;
      [|apply lookup_ge_None in Hk; lia].
    destruct (call_object cfcn [arrays]) as [out|e] eqn:Hcall; simpl in H; [|done].
    destruct (IH (S k) (<[k := out]> R) R') as (Hlen & Htake & Hall);
      [by rewrite length_insert | lia | done |].
    rewrite length_insert in Hlen.
    assert (Hout : R' !! k = Some out).
    { rewrite <- (lookup_take_lt R' (S k) k) by lia. rewrite Htake.
      rewrite lookup_take_lt by lia. apply list_lookup_insert_eq. lia. }
    split; [done|]. split.
    + replace (take k R') with (take k (take (S k) R'))
        by (rewrite take_take; f_equal; lia).
      rewrite Htake, take_take. replace (k `min` S k)%nat with k by lia.
      apply take_insert_ge. lia.
    + rewrite (drop_S _ _ _ Hk), (drop_S _ _ _ Hout). by constructor.
Qed.

(** X9. When the outputs of a chunk are computed in turn and none
    fails, the results list holds, position by position, what each
    compiled evaluator returns on the chunk. *)
Theorem results_follow_the_outputs
    (compiled : list pyobject) (arrays : value) (excinfos : list (option exn))
    (results : list value) :
  calculate_chunk compiled None arrays = Ok (excinfos, results) ->
  excinfos = [] /\
  Forall2 (fun cfcn r => call_object cfcn [arrays] = Ok r) compiled results.
Proof.
  unfold calculate_chunk. intros H.
  apply bind_inv_Ok in H as (results' & H & Heq). injection Heq as <- <-.
  split; [done|].
  apply (calculate_in_turn_Ok compiled arrays (length compiled) 0) in H
    as (_ & _ & Hall); [done | by rewrite length_replicate | done].
Qed.

Lemma results_follow_the_outputs_witness :
  [] = @nil (option exn) /\
  Forall2 (fun cfcn r => call_object cfcn [VTuple [VArray [0; 1]]] = Ok r)
          [fails_on_entry_two; item_getter 0] [VArray [0; 1]; VArray [0; 1]].
Proof.
  apply (results_follow_the_outputs [fails_on_entry_two; item_getter 0]
           (VTuple [VArray [0; 1]]) [] [VArray [0; 1]; VArray [0; 1]]).
  vm_compute. reflexivity.
Defined.

Lemma calculate_in_turn_Raise compiled arrays e : forall m k R,
  (k + m)%nat = length compiled ->
  calculate_in_turn compiled arrays (seq k m) R = Raise e ->
  exists i cfcn,
    (k <= i)%nat /\ compiled !! i = Some cfcn /\
    call_object cfcn [arrays] = Raise e /\
    forall j, (k <= j < i)%nat ->
      exists cfcn' r, compiled !! j = Some cfcn' /\ call_object cfcn' [arrays] = Ok r.
Proof.
  induction m as [|m IH]; intros k R Hkm H; simpl in H; [done|].
  unfold calculate in H.
  destruct (compiled !! k) as [cfcn|] eqn:Hk; [|apply lookup_ge_None in Hk; lia].
  destruct (call_object cfcn [arrays]) as [out|e'] eqn:Hcall; simpl in H.
  - destruct (IH (S k) _ ltac:(lia) H) as (i & c & Hi & Hc & Hraise & Hbefore).
    exists i, c. split; [lia|]. split; [done|]. split; [done|].
    intros j Hj. destruct (decide (j = k)) as [->|Hne]; [eauto|].
    apply Hbefore. lia.
  - injection H as ->. exists k, cfcn. split; [lia|]. split; [done|]. split; [done|].
    intros j Hj. lia.
Qed.

(** X10. When the outputs of a chunk are computed in turn and the
    chunk fails, the exception is that of the first output whose
    evaluator raises: every output before it has returned. *)
Theorem first_failing_output_is_raised
    (compiled : list pyobject) (arrays : value) (e : exn) :
  calculate_chunk compiled None arrays = Raise e ->
  exists i cfcn,
    compiled !! i = Some cfcn /\
    call_object cfcn [arrays] = Raise e /\
    forall j, (j < i)%nat ->
      exists cfcn' r, compiled !! j = Some cfcn' /\ call_object cfcn' [arrays] = Ok r.
Proof.
  unfold calculate_chunk. intros H.
  destruct (calculate_in_turn compiled arrays (seq 0 (length compiled))
              (replicate (length compiled) VNone)) as [results|e'] eqn:Hturn;
    simpl in H; [done|]. injection H as ->.
  apply calculate_in_turn_Raise in Hturn as (i & c & _ & Hc & Hraise & Hbefore);
    [|done].
  exists i, c. split; [done|]. split; [done|]. intros j Hj. apply Hbefore. lia.
Qed.

Lemma first_failing_output_is_raised_witness :
  exists i cfcn,
    [item_getter 0; fails_on_entry_two; item_getter 5] !! i = Some cfcn /\
    call_object cfcn [VTuple [VArray [2; 3]]] = Raise (UserException 7) /\
    forall j, (j < i)%nat ->
      exists cfcn' r,
        [item_getter 0; fails_on_entry_two; item_getter 5] !! j = Some cfcn' /\
        call_object cfcn' [VTuple [VArray [2; 3]]] = Ok r.
Proof.
  apply (first_failing_output_is_raised
           [item_getter 0; fails_on_entry_two; item_getter 5]
           (VTuple [VArray [2; 3]]) (UserException 7)).
  vm_compute. reflexivity.
Defined.

(** ** Steps that are not a source *)

Lemma entry_of_Raise ast_parse math_dict self x dictname err :
  getattr_compilefcn self = Raise err ->
  exists e, entry_of ast_parse math_dict self x dictname = Raise e.
Proof.
  intros Hget. unfold entry_of, _tofcn. rewrite Hget.
  destruct x as [text|f|]; simpl; [|eauto..].
  destruct (string2fcn ast_parse math_dict text); simpl; eauto.
Qed.

Lemma mapM_Raise {A B} (f : A -> result B) (l : list A) :
  (forall x, exists e, f x = Raise e) -> l <> [] -> exists e, mapM f l = Raise e.
Proof.
  intros Hf Hne. destruct l as [|x l]; [done|].
  destruct (Hf x) as [e He]. exists e. simpl. by rewrite He.
Qed.

Lemma tofcns_Raise ast_parse math_dict self exprs err :
  getattr_compilefcn self = Raise err ->
  exprs_count exprs <> 0%nat ->
  exists e, _tofcns ast_parse math_dict self exprs = Raise e.
Proof.
  intros Hget Hcount.
  assert (Hentry := fun x dn => entry_of_Raise ast_parse math_dict self x dn err Hget).
  destruct exprs as [x|items|xs]; unfold _tofcns; simpl in Hcount.
  - destruct x as [text|f|]; [| |eauto].
    + destruct (Hentry (Text text) (default_dictname (Text text))) as [e ->]. eauto.
    + destruct (Hentry (Callable f) (default_dictname (Callable f))) as [e ->]. eauto.
  - destruct (forallb _ _); apply mapM_Raise;
      try (intros [n x]; apply Hentry); by destruct items.
  - destruct (forallb _ _); [|eauto].
    apply mapM_Raise; [intros x; apply Hentry | by destruct xs].
Qed.

(** X11. iterate computes outputs on a source only: called on any
    other step with at least one expression, it raises before
    the source is asked for a chunk, and yields nothing. *)
Theorem iterate_needs_a_source
    (ast_parse : string -> option (list ast.node)) (math_dict : gmap string pyobject)
    (namedtuple : string -> list (option string) -> result container)
    (self : step) (exprs : exprs_arg) (ot : outputtype)
    (calcexecutor : option executor) :
  (forall s, self <> Source s) ->
  exprs_count exprs <> 0%nat ->
  exists e, iterate ast_parse math_dict namedtuple self exprs ot calcexecutor
            = ([], Some e).
Proof.
  intros Hself Hcount.
  destruct (tofcns_Raise ast_parse math_dict self exprs (AttributeError "_compilefcn"))
    as [e He]; [|done|].
  - destruct self; [by destruct (Hself s) | done..].
  - exists e. unfold iterate, iterate_setup. by rewrite He.
Qed.

Lemma iterate_needs_a_source_witness :
  exists e,
    iterate sample.parse sample.math sample.namedtuple
            (sample.y_doubles_x (Source (sample.plain sample.three_chunks)))
            (Single (Text "y")) (Container Cdict) None
    = ([], Some e).
Proof.
  apply (iterate_needs_a_source sample.parse sample.math sample.namedtuple
           (sample.y_doubles_x (Source (sample.plain sample.three_chunks)))
           (Single (Text "y")) (Container Cdict) None).
  - intros s. discriminate.
  - discriminate.
Defined.

Lemma dict_set_not_nil {K V} `{EqDecision K} (k : K) (v : V) (d : list (K * V)) :
  dict_set k v d <> [].
Proof. destruct d as [|[k' v'] d]; simpl; [done|]. by case_decide. Qed.

Lemma dict_update_nil {K V} `{EqDecision K} (items more : list (K * V)) :
  foldl (fun d kv => dict_set kv.1 kv.2 d) items more = [] ->
  items = [] /\ more = [].
Proof.
  revert items. induction more as [|[k v] more IH]; intros items H; simpl in H; [done|].
  apply IH in H as [H _]. by apply dict_set_not_nil in H.
Qed.

(** X12. Define.__init__ returns a step only for an empty mapping with
    no keyword definitions, and that step defines nothing; every other
    argument ends in an exception. *)
Theorem define_accepts_only_the_empty_mapping
    (ast_parse : string -> option (list ast.node)) (math_dict : gmap string pyobject)
    (previous : step) (exprs : exprs_arg) (more_exprs : list (string * expression))
    (new : step) :
  Define_init ast_parse math_dict previous exprs more_exprs = Ok new <->
  exprs = Mapping [] /\ more_exprs = [] /\ new = Define previous ∅ ∅.
Proof.
  split.
  - unfold Define_init. destruct exprs as [x|items|xs]; [done| |done].
    destruct (existsb _ _); [done|]. intros H.
    apply bind_inv_Ok in H as (fcns & Hfcns & H).
    assert (Hnil : fcns = []).
    { destruct fcns as [|e fcns]; [done|].
      destruct (tofcns_nonempty_Source _ _ _ _ _ Hfcns) as [s Hs]; done. }
    subst fcns. simpl in H. injection H as <-.
    assert (Hmerged : foldl (fun d kv => dict_set kv.1 kv.2 d) items more_exprs = []).
    { simpl in Hfcns. destruct (forallb _ _);
        apply mapM_Ok_inv, Forall2_length in Hfcns;
        by apply nil_length_inv. }
    apply dict_update_nil in Hmerged as [-> ->]. done.
  - intros (-> & -> & ->). reflexivity.
Qed.

(** ** Mapping records *)

Lemma dict_set_fresh {K V} `{EqDecision K} (k : K) (v : V) (d : list (K * V)) :
  k ∉ d.*1 -> dict_set k v d = d ++ [(k, v)].
Proof.
  induction d as [|[k' v'] d IH]; intros Hk; simpl; [done|].
  rewrite fmap_cons, not_elem_of_cons in Hk. destruct Hk as [Hne Hk].
  rewrite decide_False by done. by rewrite IH.
Qed.

Lemma dict_update_fresh {K V} `{EqDecision K} (items acc : list (K * V)) :
  NoDup items.*1 ->
  (forall k, k ∈ items.*1 -> k ∉ acc.*1) ->
  foldl (fun d kv => dict_set kv.1 kv.2 d) acc items = acc ++ items.
Proof.
  revert acc. induction items as [|[k v] items IH]; intros acc Hnd Hfresh; simpl.
  - by rewrite app_nil_r.
  - rewrite fmap_cons in Hnd. apply NoDup_cons in Hnd as [Hk Hnd].
    rewrite dict_set_fresh by (apply Hfresh; left).
    rewrite IH; [by rewrite <- app_assoc | done |].
    intros k' Hk'. rewrite fmap_app, elem_of_app. intros [Hacc|Heq].
    + revert Hacc. apply Hfresh. by right.
    + simpl in Heq. apply list_elem_of_singleton in Heq as ->. done.
Qed.

Lemma zip_keys_NoDup {A B} (l : list A) (k : list B) : NoDup l -> NoDup (zip l k).*1.
Proof.
  revert k. induction l as [|x l IH]; intros [|y k] Hnd; simpl; try apply NoDup_nil_2.
  apply NoDup_cons in Hnd as [Hx Hnd]. apply NoDup_cons. split; [|by apply IH].
  intros Hin. apply list_elem_of_fmap in Hin as ([x' y'] & -> & Hin).
  apply elem_of_zip_l in Hin. done.
Qed.

(** X13. With the mapping container and display names that are all
    different, the record of a chunk lists the names in the order of
    the outputs, each with the result of its output. *)
Theorem mapping_record_keeps_the_order
    (dictnames : list (option string)) (results : list value) :
  NoDup dictnames ->
  finish Cdict dictnames results = RDict (zip dictnames results).
Proof.
  intros Hnd. simpl. f_equal. unfold pydict.
  rewrite dict_update_fresh; [done | by apply zip_keys_NoDup |].
  intros k _. simpl. apply not_elem_of_nil.
Qed.

Lemma mapping_record_keeps_the_order_witness :
  finish Cdict [Some "a"; Some "b"] [VInt 1; VInt 2] =
  RDict (zip [Some "a"; Some "b"] [VInt 1; VInt 2]).
Proof.
  apply (mapping_record_keeps_the_order [Some "a"; Some "b"] [VInt 1; VInt 2]).
  apply NoDup_cons. split; [|apply NoDup_singleton].
  intros H. apply list_elem_of_singleton in H. discriminate.
Defined.

Lemma tofcns_Mapping_dictnames_witness :
  match _tofcns sample.parse sample.math (Source (sample.plain sample.one_chunk))
                (Mapping [("a", Text "x + 1"); ("b", Text "x")]) with
  | Ok fcns => dictname_of <$> fcns =
               Some <$> [("a", Text "x + 1"); ("b", Text "x")].*1
  | Raise _ => False
  end.
Proof.
  destruct (_tofcns sample.parse sample.math (Source (sample.plain sample.one_chunk))
                    (Mapping [("a", Text "x + 1"); ("b", Text "x")]))
    as [fcns|e] eqn:H.
  - apply (tofcns_Mapping_dictnames sample.parse sample.math
             (Source (sample.plain sample.one_chunk))
             [("a", Text "x + 1"); ("b", Text "x")] fcns); [reflexivity | exact H].
  - vm_compute in H. discriminate.
Defined.

(** ** Requirement lists of texts *)

Lemma recurse_insymbols_read n : forall st st' x,
  recurse n st = Ok st' -> x ∈ st'.1 -> x ∈ st.1 \/ x ∈ loads n.
Proof.
  assert (Heach : forall l, Forall (fun n => forall st st' x,
      recurse n st = Ok st' -> x ∈ st'.1 -> x ∈ st.1 \/ x ∈ loads n) l ->
    forall st st' x, recurse_each l st = Ok st' -> x ∈ st'.1 ->
      x ∈ st.1 \/ x ∈ concat (map loads l)).
  { induction 1 as [|y l Hy _ IHl]; intros st st' x H Hx; simpl in *.
    - injection H as <-. by left.
    - apply bind_inv_Ok in H as (st1 & H1 & H2).
      destruct (IHl _ _ _ H2 Hx) as [Hx1|Hx1]; [|right; set_solver].
      destruct (Hy _ _ _ H1 Hx1) as [?|?]; [by left | right; set_solver]. }
  induction n as [fields _|id ctx|cls fields IH|elems IH|c] using node_ind';
    intros st st' x H Hx.
  - done.
  - simpl in H. injection H as <-. destruct st as [i o]. destruct ctx; simpl in *;
      try (by left). case_decide; simpl in *; [by left|]. set_solver.
  - rewrite recurse_AST in H. simpl. by eapply Heach.
  - rewrite recurse_List in H. simpl. by eapply Heach.
  - simpl in H. injection H as <-. by left.
Qed.

Lemma string2fcn_Ok_inv ast_parse math_dict text o :
  string2fcn ast_parse math_dict text = Ok o ->
  exists body insymbols outsymbols,
    ast_parse text = Some body /\
    recurse (ast.List body) (∅, ∅) = Ok (insymbols, outsymbols) /\
    forallb modelled body = true /\
    o = PyFunction (closure {| def_name := "fcn";
                               def_args := sorted insymbols;
                               def_body := return_last body |} math_dict).
Proof.
  unfold string2fcn. destruct (ast_parse text) as [body|]; [|done].
  destruct (recurse (ast.List body) (∅, ∅)) as [[insymbols outsymbols]|] eqn:Hrec;
    [|done]. simpl. case_decide; [done|]. unfold parse_def.
  destruct (find is_reserved (sorted insymbols)); [done|].
  destruct (255 <? length (sorted insymbols))%nat; [done|]. simpl.
  unfold compile. simpl def_body. rewrite return_last_modelled, return_last_loop_exits.
  destruct (forallb modelled body) eqn:Hmodelled; [|done]. simpl.
  destruct (concat (map loop_exits body)) as [|[] exits]; try done. simpl.
  unfold makefcn. simpl def_name. rewrite lookup_insert_eq. intros [= <-].
  by exists body, insymbols, outsymbols.
Qed.

(** X14. For a text of plain statements that assigns no name, the
    requirement list is the sorted list, without repetition, of the
    bare names the text reads. *)
Theorem requirements_of_a_text_without_assignment
    (ast_parse : string -> option (list ast.node)) (math_dict : gmap string pyobject)
    (self : step) (text : string) (body : list ast.node)
    (fcn : pyobject) (requirements : list string) :
  ast_parse text = Some body ->
  forallb modelled body = true ->
  concat (map stores body) = [] ->
  _tofcn ast_parse math_dict self (Text text) = Ok (fcn, requirements) ->
  requirements = sorted (list_to_set (concat (map loads body))).
Proof.
  intros Hparse _ Hstores H. unfold _tofcn in H.
  apply bind_inv_Ok in H as (expr' & Hexpr & H).
  apply bind_inv_Ok in H as (compilefcn & _ & H).
  apply string2fcn_Ok_inv in Hexpr as (body' & ins & outs & Hparse' & Hrec & _ & ->).
  rewrite Hparse in Hparse'. injection Hparse' as <-.
  injection H as _ <-. unfold co_varnames. simpl.
  rewrite return_last_stores, Hstores. simpl. rewrite app_nil_r. f_equal.
  destruct (recurse_symbols _ _ _ Hrec) as (_ & Hout & Hloads).
  simpl in Hout, Hloads. rewrite Hstores in Hout.
  apply set_eq. intros x. rewrite elem_of_list_to_set. split.
  - intros Hx. destruct (recurse_insymbols_read _ _ _ x Hrec Hx) as [?|?]; set_solver.
  - intros Hx. destruct (Hloads x Hx) as [?|Ho]; [done|]. set_solver.
Qed.

Lemma requirements_of_a_text_without_assignment_witness :
  match _tofcn sample.parse sample.math (Source (sample.plain sample.one_chunk))
               (Text "a + b") with
  | Ok (fcn, requirements) =>
      requirements =
      sorted (list_to_set (concat (map loads
        [sample.expr (sample.op ast.Add (sample.name "a") (sample.name "b"))])))
  | Raise _ => False
  end.
Proof.
  destruct (_tofcn sample.parse sample.math (Source (sample.plain sample.one_chunk))
                   (Text "a + b")) as [[fcn requirements]|e] eqn:H.
  - apply (requirements_of_a_text_without_assignment sample.parse sample.math
             (Source (sample.plain sample.one_chunk)) "a + b"
             [sample.expr (sample.op ast.Add (sample.name "a") (sample.name "b"))]
             fcn requirements);
      [vm_compute; reflexivity | reflexivity | reflexivity | exact H].
  - vm_compute in H. discriminate.
Defined.

(** ** A name assigned from itself *)

Lemma free_names_not_assigned l : forall assigned x,
  x ∈ assigned -> x ∉ free_names assigned l.
Proof.
  induction l as [|[id ctx] l IH]; intros assigned x Hx; simpl; [apply not_elem_of_nil|].
  destruct ctx; try by apply IH.
  - case_decide; [by apply IH|]. apply not_elem_of_cons. split; [|by apply IH].
    by intros ->.
  - apply IH. by right.
Qed.

Lemma eval_expr_raises load e x :
  SupExpr e -> x ∈ loads e -> (exists err, load x = Raise err) ->
  exists err, eval_expr load e = Raise err.
Proof.
  intros He Hx Hload. induction He as [n|id|l op r Hop Hl IHl Hr IHr]; simpl in *.
  - by apply elem_of_nil in Hx.
  - by apply list_elem_of_singleton in Hx as ->.
  - rewrite app_nil_r in Hx. apply elem_of_app in Hx as [Hx|Hx].
    + destruct (IHl Hx) as [err ->]. eauto.
    + destruct (eval_expr load l); [|eauto]. simpl.
      destruct (IHr Hx) as [err ->]. eauto.
Qed.

(** X16. A text whose first statement assigns a name from an
    expression that reads the same name: the walk meets the target
    before the value, so the name is not made a parameter, and the
    compiled function returns for no arguments at all. *)
Theorem assignment_from_itself_never_returns
    (ast_parse : string -> option (list ast.node)) (math_dict : gmap string pyobject)
    (text x : string) (e : ast.node) (rest : list ast.node) (f : pyfunction) :
  ast_parse text =
    Some (ast.AST ast.Assign [ast.List [ast.Name x ast.Store]; e] :: rest) ->
  supported_expr e = true ->
  x ∈ loads e ->
  string2fcn ast_parse math_dict text = Ok (PyFunction f) ->
  (x ∉ co_argnames f) /\ forall args, returned (pycall f args) = None.
Proof.
  intros Hparse He Hx Hf. apply supported_expr_SupExpr in He.
  apply string2fcn_Ok_inv in Hf as (body & ins & outs & Hparse' & Hrec & _ & Heq).
  rewrite Hparse in Hparse'. injection Hparse' as <-. injection Heq as ->.
  assert (Hnot : x ∉ sorted ins).
  { rewrite elem_of_sorted.
    pose proof (recurse_free_names _ _ _ [] Hrec) as Hin. simpl in Hin.
    rewrite Hin by set_solver.
    rewrite (left_id_L ∅ (∪)), elem_of_list_to_set.
    apply free_names_not_assigned. by left. }
  split; [done|]. intros args. unfold pycall.
  case_decide as Hlen; [|done]. simpl fn_body.
  edestruct (eval_expr_raises
    (load_in_function
       {| def_name := "fcn"; def_args := sorted ins;
          def_body := ast.AST ast.Assign [ast.List [ast.Name x ast.Store]; e]
                      :: return_last rest |}
       math_dict (list_to_map (zip (sorted ins) args))) e x He Hx) as [err Herr].
  - unfold load_in_function.
    rewrite decide_True by (unfold local_names; simpl; set_solver).
    rewrite not_elem_of_list_to_map_1; [eauto|].
    intros Hin. apply list_elem_of_fmap in Hin as ([x' v] & -> & Hin).
    apply elem_of_zip_l in Hin. done.
  - by rewrite Herr.
Qed.

Lemma assignment_from_itself_never_returns_witness :
  match string2fcn parse_with_increment sample.math "x = x + 1" with
  | Ok (PyFunction f) =>
      ("x" ∉ co_argnames f) /\ forall args, returned (pycall f args) = None
  | _ => False
  end.
Proof.
  destruct (string2fcn parse_with_increment sample.math "x = x + 1")
    as [[v|f|d]|err] eqn:H; try (vm_compute in H; discriminate).
  apply (assignment_from_itself_never_returns parse_with_increment sample.math
           "x = x + 1" "x" (sample.op ast.Add (sample.name "x") (sample.num 1)) [] f).
  - vm_compute. reflexivity.
  - reflexivity.
  - simpl. set_solver.
  - exact H.
Defined.

(** ** A whole run on a source *)





